(** * pynrfjprog: the cross-process command proxy (MultiAPI) and the
    parameter types it rests on (Parameters)

    A shallow embedding of [src/pynrfjprog/MultiAPI.py].  The facade
    ([MultiAPI]) and its worker ([_runner]) run in two processes that talk
    over two FIFO queues; the embedding keeps both in one [World] and lets the
    worker run whenever the caller blocks on the acknowledgement queue.  What
    crosses a queue crosses pickled: an acknowledgement reaches the caller as
    [pickle] rebuilds it, or not at all.

    Every primitive the source calls on a lock, a queue, the worker process or
    the standard output appends an [Event] to the world's [log], so that
    "nothing was enqueued" or "no release was attempted" are statements about
    the log. *)

From stdpp Require Import base strings list gmap pretty.
From Stdlib Require Import ZArith Lia Floats.

(** * pynrfjprog.Parameters: validation helpers, enumerations, info classes

    A shallow embedding of [src/pynrfjprog/Parameters.py], which the API and
    through it the proxy below build on.  The module carries an f-string
    ([log_function]), so it only loads under Python 3: [sys.version_info[0]]
    is never 2. *)
Module Parameters.

Definition NRFJPROG_MAX_PATH : nat := 260.
Definition NRFJPROG_STRING_LENGTH : nat := 256.
Definition NRFJPROG_COM_PER_JLINK : nat := 10.

(** ** Python values and errors *)

Inductive PyError :=
| TypeError (msg : string)
| ValueError (msg : string)
| AttributeError (msg : string)
| KeyError (key : string)
| OSError (msg : string).

Inductive Result (A : Type) :=
| Ok (a : A)
| Raise (e : PyError).
Arguments Ok {A} _.
Arguments Raise {A} _.

(** A member of an [IntEnum] (or [IntFlag]) class: the class it belongs to,
    its name and its integer value. *)
Record EnumMember := mkMember {
  em_class : string;
  em_name : string;
  em_value : Z
}.

(** The values the helpers are called with.  Every enumeration of the module
    derives from [int], and so does [bool]; a [float] does not. *)
#[warnings="-register-all"]
Inductive PyValue :=
| PNone
| PBool (b : bool)
| PInt (z : Z)
| PFloat (f : float)
| PStr (s : string)
| PBytes (bs : list Byte.byte)
| PList (l : list PyValue)
| PEnum (m : EnumMember).

(** [type(v).__name__] *)
Definition type_name (v : PyValue) : string :=
  match v with
  | PNone => "NoneType"
  | PBool _ => "bool"
  | PInt _ => "int"
  | PFloat _ => "float"
  | PStr _ => "str"
  | PBytes _ => "bytes"
  | PList _ => "list"
  | PEnum m => em_class m
  end.

(** The integer behind a value for which [isinstance(v, int)] holds. *)
Definition as_int (v : PyValue) : option Z :=
  match v with
  | PBool b => Some (if b then 1 else 0)%Z
  | PInt z => Some z
  | PEnum m => Some (em_value m)
  | _ => None
  end.

(** ** Helper functions for validating data types *)

Definition is_u32 (value : PyValue) : bool :=
  match as_int value with
  | Some z => (0 <=? z)%Z && (z <=? 0xFFFFFFFF)%Z
  | None => false
  end.

Definition is_u8 (value : PyValue) : bool :=
  match as_int value with
  | Some z => (0 <=? z)%Z && (z <=? 0xFF)%Z
  | None => false
  end.

(** [isinstance(value, bool) or 0 <= value <= 1]: the comparison raises
    [TypeError] for a value that does not compare with an [int]; a [float]
    does compare (a NaN with [False]). *)
Definition is_bool (value : PyValue) : Result bool :=
  match value with
  | PBool _ => Ok true
  | PFloat f => Ok (PrimFloat.leb 0%float f && PrimFloat.leb f 1%float)
  | _ =>
      match as_int value with
      | Some z => Ok ((0 <=? z)%Z && (z <=? 1)%Z)
      | None =>
          Raise (TypeError ("'<=' not supported between instances of 'int' and '"
                            +:+ type_name value +:+ "'"))
      end
  end.

(** [for value in buf]: the items the loop sees.  A [str] yields its
    characters as strings of length one, [bytes] yields integers. *)
Definition iterate (buf : PyValue) : Result (list PyValue) :=
  match buf with
  | PList l => Ok l
  | PBytes bs => Ok (map (fun b => PInt (Z.of_N (Byte.to_N b))) bs)
  | PStr s => Ok (map (fun ch => PStr (String ch "")) (String.list_ascii_of_string s))
  | _ => Raise (TypeError ("'" +:+ type_name buf +:+ "' object is not iterable"))
  end.

(** The loop of [is_valid_buf]: [Some false] when it returns from inside,
    [None] when it runs to its end. *)
Fixpoint is_valid_buf_loop (items : list PyValue) : option bool :=
  match items with
  | [] => None
  | value :: rest => if negb (is_u8 value) then Some false else is_valid_buf_loop rest
  end.

Definition is_valid_buf (buf : PyValue) : Result bool :=
  match buf with
  | PNone => Ok false
  | _ =>
      match iterate buf with
      | Raise e => Raise e
      | Ok items =>
          match is_valid_buf_loop items with
          | Some b => Ok b
          | None => Ok (0 <? length items)
          end
      end
  end.

(** ** Enumerations

    An enumeration class is its name and its [__members__] in definition
    order, aliases included.  A name bound to a value that an earlier name
    already has is an alias of that earlier member. *)
Record EnumType := mkEnum {
  enum_name : string;
  enum_members : list (string * Z)
}.

(** [enum_type(value)] for an integer: the first member defined with that
    value. *)
Definition by_value (E : EnumType) (v : Z) : option EnumMember :=
  match filter (fun nv => nv.2 = v) (enum_members E) with
  | (n, _) :: _ => Some (mkMember (enum_name E) n v)
  | [] => None
  end.

(** [enum_type[name]]: the member the name is bound to. *)
Definition by_name (E : EnumType) (n : string) : option EnumMember :=
  match filter (fun nv => nv.1 = n) (enum_members E) with
  | (_, v) :: _ => by_value E v
  | [] => None
  end.

(** [enum_type(value)] *)
Definition enum_call (E : EnumType) (v : Z) : Result EnumMember :=
  match by_value E v with
  | Some m => Ok m
  | None => Raise (ValueError (pretty v +:+ " is not a valid " +:+ enum_name E))
  end.

(** [isinstance(param, enum_type)] *)
Definition isinstance_enum (param : PyValue) (E : EnumType) : bool :=
  match param with
  | PEnum m => bool_decide (em_class m = enum_name E)
  | _ => false
  end.

Definition is_enum (param : PyValue) (E : EnumType) : bool :=
  if isinstance_enum param E then true
  else
    match as_int param, param with
    | Some z, _ => bool_decide (z ∈ (enum_members E).*2)
    | None, PStr s => bool_decide (s ∈ (enum_members E).*1)
    | None, _ => false
    end.

(** [decode_enum] returns [None] or a member; [enum_type(param)] with a
    member of [enum_type] is that member. *)
Definition decode_enum (param : PyValue) (E : EnumType) : Result PyValue :=
  if negb (is_enum param E) then Ok PNone
  else
    match as_int param, param with
    | Some z, _ =>
        if isinstance_enum param E then Ok param
        else
          match enum_call E z with
          | Ok m => Ok (PEnum m)
          | Raise e => Raise e
          end
    | None, PStr s =>
        match by_name E s with
        | Some m => Ok (PEnum m)
        | None => Raise (KeyError s)
        end
    | None, _ => Ok param
    end.

Definition DeviceFamily : EnumType := mkEnum "DeviceFamily"
    [("NRF51", 0%Z);
     ("NRF52", 1%Z);
     ("NRF53", 53%Z);
     ("NRF91", 91%Z);
     ("UNKNOWN", 99%Z)].

Definition DeviceVersion : EnumType := mkEnum "DeviceVersion"
    [("UNKNOWN", 0%Z);
     ("NRF51xxx_xxAA_REV1", 1%Z);
     ("NRF51xxx_xxAA_REV2", 2%Z);
     ("NRF51xxx_xxAA_REV3", 3%Z);
     ("NRF51xxx_xxAB_REV3", 4%Z);
     ("NRF51xxx_xxAC_REV3", 5%Z);
     ("NRF51802_xxAA_REV3", 6%Z);
     ("NRF51801_xxAB_REV3", 17%Z);
     ("NRF52805_xxAA_REV1", 86508800%Z);
     ("NRF52805_xxAA_FUTURE", 86509055%Z);
     ("NRF52810_xxAA_REV1", 13%Z);
     ("NRF52810_xxAA_REV2", 86511617%Z);
     ("NRF52810_xxAA_FUTURE", 14%Z);
     ("NRF52811_xxAA_REV1", 86511872%Z);
     ("NRF52811_xxAA_FUTURE", 86512127%Z);
     ("NRF52820_xxAA_REV1", 86515712%Z);
     ("NRF52820_xxAA_REV2", 86515713%Z);
     ("NRF52820_xxAA_FUTURE", 86515967%Z);
     ("NRF52832_xxAA_ENGA", 7%Z);
     ("NRF52832_xxAA_ENGB", 8%Z);
     ("NRF52832_xxAA_REV1", 9%Z);
     ("NRF52832_xxAA_REV2", 19%Z);
     ("NRF52832_xxAA_REV3", 86520321%Z);
     ("NRF52832_xxAA_FUTURE", 11%Z);
     ("NRF52832_xxAB_REV1", 15%Z);
     ("NRF52832_xxAB_REV2", 20%Z);
     ("NRF52832_xxAB_FUTURE", 16%Z);
     ("NRF52833_xxAA_REV1", 86520576%Z);
     ("NRF52833_xxAA_FUTURE", 86520831%Z);
     ("NRF52840_xxAA_ENGA", 10%Z);
     ("NRF52840_xxAA_ENGB", 21%Z);
     ("NRF52840_xxAA_REV1", 18%Z);
     ("NRF52840_xxAA_REV2", 86523907%Z);
     ("NRF52840_xxAA_REV3", 86523908%Z);
     ("NRF52840_xxAA_FUTURE", 12%Z);
     ("NRF5340_xxAA_ENGA", 87293952%Z);
     ("NRF5340_xxAA_ENGB", 87293953%Z);
     ("NRF5340_xxAA_ENGC", 87293954%Z);
     ("NRF5340_xxAA_ENGD", 87293955%Z);
     ("NRF5340_xxAA_FUTURE", 87294207%Z);
     ("NRF9160_xxAA_REV1", 152436736%Z);
     ("NRF9160_xxAA_REV2", 152436737%Z);
     ("NRF9160_xxAA_FUTURE", 152436991%Z)].

Definition RamPower : EnumType := mkEnum "RamPower"
    [("OFF", 0%Z);
     ("ON", 1%Z)].

Definition CpuRegister : EnumType := mkEnum "CpuRegister"
    [("R0", 0%Z);
     ("R1", 1%Z);
     ("R2", 2%Z);
     ("R3", 3%Z);
     ("R4", 4%Z);
     ("R5", 5%Z);
     ("R6", 6%Z);
     ("R7", 7%Z);
     ("R8", 8%Z);
     ("R9", 9%Z);
     ("R10", 10%Z);
     ("R11", 11%Z);
     ("R12", 12%Z);
     ("R13", 13%Z);
     ("SP", 13%Z);
     ("R14", 14%Z);
     ("LR", 14%Z);
     ("R15", 15%Z);
     ("PC", 15%Z);
     ("XPSR", 16%Z);
     ("MSP", 17%Z);
     ("PSP", 18%Z)].

Definition NrfjrpogdllLogLevel : EnumType := mkEnum "NrfjrpogdllLogLevel"
    [("critical", 60%Z);
     ("error", 50%Z);
     ("warning", 40%Z);
     ("info", 30%Z);
     ("debug", 20%Z);
     ("trace", 10%Z);
     ("none", 0%Z)].

Definition MemoryType : EnumType := mkEnum "MemoryType"
    [("CODE", 0%Z);
     ("DATA_RAM", 1%Z);
     ("CODE_RAM", 2%Z);
     ("FICR", 3%Z);
     ("UICR", 4%Z);
     ("XIP", 5%Z)].

Definition MemoryAccess : EnumType := mkEnum "MemoryAccess"
    [("MEM_ACCESS_EXECUTE", 1%Z);
     ("MEM_ACCESS_WRITE", 2%Z);
     ("MEM_ACCESS_READ", 4%Z);
     ("MEM_ACCESS_ERASE", 8%Z);
     ("MEM_ACCESS_SECURE", 16%Z)].

(** [@enum.unique]: no two names share a value. *)
Definition unique (E : EnumType) : Prop := NoDup (enum_members E).*2.

(** The value of a member given by name, as in
    [NrfjrpogdllLogLevel.critical]; 0 stands in for a name the class lacks. *)
Definition member_value (E : EnumType) (n : string) : Z :=
  match by_name E n with
  | Some m => em_value m
  | None => 0
  end.

(** ** Log levels *)

(** The levels of the [logging] module. *)
Definition logging_CRITICAL : Z := 50.
Definition logging_ERROR : Z := 40.
Definition logging_WARNING : Z := 30.
Definition logging_INFO : Z := 20.
Definition logging_DEBUG : Z := 10.
Definition logging_NOTSET : Z := 0.

Definition get_name_from_value (level : Z) : string :=
  match enum_call NrfjrpogdllLogLevel level with
  | Ok m => em_name m
  | Raise _ => "info"
  end.

Definition get_level_from_value (level : Z) : Z :=
  if (level =? member_value NrfjrpogdllLogLevel "critical")%Z then logging_CRITICAL
  else if (level =? member_value NrfjrpogdllLogLevel "error")%Z then logging_ERROR
  else if (level =? member_value NrfjrpogdllLogLevel "warning")%Z then logging_WARNING
  else if (level =? member_value NrfjrpogdllLogLevel "info")%Z then logging_INFO
  else if (level =? member_value NrfjrpogdllLogLevel "debug")%Z then logging_DEBUG
  else if (level =? member_value NrfjrpogdllLogLevel "trace")%Z then logging_DEBUG
  else if (level =? member_value NrfjrpogdllLogLevel "none")%Z then logging_NOTSET
  else logging_NOTSET.

(** ** Memory descriptions *)

(** What the fields of a [MemoryDescriptionStruct] read as ([label] up to
    its first NUL). *)
Record MemoryDescriptionStruct := mkMemoryDescriptionStruct {
  mds_start : Z;
  mds_size : Z;
  mds_num_pages : Z;
  mds_type : Z;
  mds_access_flags : Z;
  mds_has_trustzone_alias : bool;
  mds_is_runtime_configurable : bool;
  mds_id : Z;
  mds_label : list Byte.byte
}.

Record PageRepetitions := mkPageRepetitions {
  pr_size : Z;
  pr_num_repeats : Z
}.

Record MemoryDescription := mkMemoryDescription {
  md_cstruct : MemoryDescriptionStruct;
  md_start : Z;
  md_size : Z;
  md_num_pages : Z;
  md_type : EnumMember;
  md_access_flags : Z;
  md_has_trustzone_alias : bool;
  md_is_runtime_configurable : bool;
  md_id : Z;
  md_label : string;
  md_page_repetitions : option (list PageRepetitions)
}.

Definition executable (self : MemoryDescription) : bool :=
  (0 <? Z.land (md_access_flags self) (member_value MemoryAccess "MEM_ACCESS_EXECUTE"))%Z.

Definition writable (self : MemoryDescription) : bool :=
  (0 <? Z.land (md_access_flags self) (member_value MemoryAccess "MEM_ACCESS_WRITE"))%Z.

Definition readable (self : MemoryDescription) : bool :=
  (0 <? Z.land (md_access_flags self) (member_value MemoryAccess "MEM_ACCESS_READ"))%Z.

Definition erasable (self : MemoryDescription) : bool :=
  (0 <? Z.land (md_access_flags self) (member_value MemoryAccess "MEM_ACCESS_ERASE"))%Z.

(** ** Info classes *)

Record ComPortInfoStruct := mkComPortInfoStruct {
  cps_path : list Byte.byte;
  cps_vcom : N;
  cps_serial_number : N
}.

Record ComPortInfo := mkComPortInfo {
  cp_path : string;
  cp_vcom : N;
  cp_serial_number : N
}.

(** [com_ports] is the C array of the struct, [NRFJPROG_COM_PER_JLINK]
    entries long. *)
Record ProbeInfoStruct := mkProbeInfoStruct {
  pis_serial_number : N;
  pis_clockspeed_khz : N;
  pis_firmware_string : list Byte.byte;
  pis_num_com_ports : N;
  pis_com_ports : list ComPortInfoStruct
}.

Record ProbeInfo := mkProbeInfo {
  pi_serial_number : N;
  pi_clockspeed_khz : N;
  pi_firmware_string : string;
  pi_num_com_ports : N;
  pi_com_ports : list ComPortInfo
}.

Record DeviceInfoStruct := mkDeviceInfoStruct {
  dis_device_family : Z;
  dis_device_type : Z;
  dis_code_address : N;
  dis_code_page_size : N;
  dis_code_size : N;
  dis_uicr_address : N;
  dis_info_page_size : N;
  dis_code_ram_present : bool;
  dis_code_ram_address : N;
  dis_data_ram_address : N;
  dis_ram_size : N;
  dis_qspi_present : bool;
  dis_xip_address : N;
  dis_xip_size : N;
  dis_pin_reset_pin : N
}.

Record DeviceInfo := mkDeviceInfo {
  di_device_type : EnumMember;
  di_device_family : EnumMember;
  di_code_address : N;
  di_code_page_size : N;
  di_code_size : N;
  di_uicr_address : N;
  di_info_page_size : N;
  di_code_ram_present : bool;
  di_code_ram_address : N;
  di_data_ram_address : N;
  di_ram_size : N;
  di_qspi_present : bool;
  di_xip_address : N;
  di_xip_size : N;
  di_pin_reset_pin : N;
  di_dll_ret_code : option Z
}.

(** [DeviceInfo.__init__]: the two enumeration calls come first, the device
    type before the family. *)
Definition DeviceInfo_init (device_info : DeviceInfoStruct) (dll_ret_code : option Z)
  : Result DeviceInfo :=
  match enum_call DeviceVersion (dis_device_type device_info) with
  | Raise e => Raise e
  | Ok device_type =>
      match enum_call DeviceFamily (dis_device_family device_info) with
      | Raise e => Raise e
      | Ok device_family =>
          Ok (mkDeviceInfo device_type device_family
                (dis_code_address device_info) (dis_code_page_size device_info)
                (dis_code_size device_info) (dis_uicr_address device_info)
                (dis_info_page_size device_info) (dis_code_ram_present device_info)
                (dis_code_ram_address device_info) (dis_data_ram_address device_info)
                (dis_ram_size device_info) (dis_qspi_present device_info)
                (dis_xip_address device_info) (dis_xip_size device_info)
                (dis_pin_reset_pin device_info) dll_ret_code)
      end
  end.

Section Decoding.

(** [bytes.decode('utf-8', errors='replace')], the interpreter's. *)
Variable utf8_decode_replace : list Byte.byte -> string.

Definition decode_string (v : PyValue) : Result PyValue :=
  match v with
  | PStr s => Ok (PStr s)
  | PBytes bs => Ok (PStr (utf8_decode_replace bs))
  | _ => Raise (AttributeError ("'" +:+ type_name v +:+ "' object has no attribute 'decode'"))
  end.

(** [decode_string] on the bytes a [c_char] array field reads as. *)
Definition decode_chars (bs : list Byte.byte) : string := utf8_decode_replace bs.

Definition ComPortInfo_init (probe_info : ComPortInfoStruct) : ComPortInfo :=
  mkComPortInfo (decode_chars (cps_path probe_info)) (cps_vcom probe_info)
                (cps_serial_number probe_info).

(** [probe_info.com_ports[0:self.num_com_ports]] is a slice: it stops at the
    end of the array. *)
Definition ProbeInfo_init (probe_info : ProbeInfoStruct) : ProbeInfo :=
  let num_com_ports := pis_num_com_ports probe_info in
  mkProbeInfo (pis_serial_number probe_info) (pis_clockspeed_khz probe_info)
              (decode_chars (pis_firmware_string probe_info))
              num_com_ports
              (map ComPortInfo_init
                   (take (N.to_nat num_com_ports) (pis_com_ports probe_info))).

Definition MemoryDescription_init (memory_description_struct : MemoryDescriptionStruct)
  : Result MemoryDescription :=
  let c := memory_description_struct in
  match enum_call MemoryType (mds_type c) with
  | Raise e => Raise e
  | Ok type =>
      Ok (mkMemoryDescription c (mds_start c) (mds_size c) (mds_num_pages c) type
            (mds_access_flags c) (mds_has_trustzone_alias c)
            (mds_is_runtime_configurable c) (mds_id c) (decode_chars (mds_label c)) None)
  end.

End Decoding.

(** ** The logger adapter *)

Inductive HandlerKind :=
| ErrorHandler
| CallbackHandler (callback : string)
| StreamHandler (stream : string)
| FileHandler (path : string)
| ForeignHandler (tag : string).

(** A handler of the [logging] module: its level and the format string of
    its formatter, if one was set. *)
Record Handler := mkHandler {
  h_kind : HandlerKind;
  h_level : Z;
  h_format : option string
}.

Record Logger := mkLogger {
  handlers : list Handler;
  disabled : bool
}.

Definition BASIC_FORMAT : string := "%(levelname)s:%(name)s:%(message)s".

(** [logger.addHandler(h)] for a handler just created. *)
Definition addHandler (h : Handler) (l : Logger) : Logger :=
  mkLogger (handlers l ++ [h]) (disabled l).

Definition set_disabled (b : bool) (l : Logger) : Logger := mkLogger (handlers l) b.

Definition setFormatter (fmt : string) (h : Handler) : Handler :=
  mkHandler (h_kind h) (h_level h) (Some fmt).

(** The adapter's own fields: [extra] (the id, as [%s] prints it) and
    whether [log_cb] was set. *)
Record LoggerAdapter := mkLoggerAdapter {
  extra : option string;
  log_cb : bool
}.

(** [not log] for the optional flag. *)
Definition falsy (log : option bool) : bool :=
  match log with
  | Some true => false
  | _ => true
  end.

Section Logging.

(** [logging.FileHandler(path)] opens the file: the error it raises, if
    any. *)
Variable open_error : string -> option PyError.

(** The last part of [LoggerAdapter.__init__], from [if not
    self.logger.disabled]. *)
Definition LoggerAdapter_finish (id : option string) (log_str : option string)
    (l : Logger) : Logger * Result LoggerAdapter :=
  if negb (disabled l) then
    (match log_str with
     | Some prefix =>
         mkLogger (map (setFormatter (prefix +:+ "%(message)s")) (handlers l)) (disabled l)
     | None => l
     end,
     Ok (mkLoggerAdapter id true))
  else (l, Ok (mkLoggerAdapter id false)).

(** [LoggerAdapter.__init__]: the logger as the constructor leaves it, and
    the adapter or the error raised. *)
Definition LoggerAdapter_init (logger : Logger) (id : option string) (log : option bool)
    (log_str_cb : option string) (log_str : option string)
    (log_file_path : option string) (log_stringio : option string)
  : Logger * Result LoggerAdapter :=
  let l1 := addHandler (mkHandler ErrorHandler logging_ERROR None) logger in
  let l2 := set_disabled false l1 in
  let l3 := match log_str_cb with
            | Some cb => addHandler (mkHandler (CallbackHandler cb) logging_NOTSET
                                       (Some BASIC_FORMAT)) l2
            | None => l2
            end in
  match log_stringio with
  | Some io =>
      LoggerAdapter_finish id log_str
        (addHandler (mkHandler (StreamHandler io) logging_NOTSET (Some BASIC_FORMAT)) l3)
  | None =>
      match log_file_path with
      | Some path =>
          match open_error path with
          | Some e => (l3, Raise e)
          | None =>
              LoggerAdapter_finish id log_str
                (addHandler (mkHandler (FileHandler path) logging_NOTSET
                               (Some BASIC_FORMAT)) l3)
          end
      | None =>
          if falsy log then LoggerAdapter_finish id log_str (set_disabled true l3)
          else LoggerAdapter_finish id log_str l3
      end
  end.

End Logging.

Definition set_id (id : option string) (self : LoggerAdapter) : LoggerAdapter :=
  mkLoggerAdapter id (log_cb self).

(** [process(msg, kwargs)]: the message it returns. *)
Definition process (self : LoggerAdapter) (msg : string) : string :=
  match extra self with
  | Some id => "[" +:+ id +:+ "] " +:+ msg
  | None => msg
  end.

(** [log_function]: the level and the message it hands to [self.log]. *)
Definition log_function (logger_name : string) (level : Z) (msg_str : string) : Z * string :=
  (get_level_from_value level, "[" +:+ logger_name +:+ "] " +:+ msg_str).

End Parameters.

(** * pynrfjprog.MultiAPI *)
Module MultiAPI.

(** ** Python values *)

#[warnings="-register-all"]
Inductive Value :=
| VNone
| VBool (b : bool)
| VInt (z : Z)
| VStr (s : string)
| VList (l : list Value).

(** [v is not None] *)
Definition is_not_None (v : Value) : bool :=
  match v with
  | VNone => false
  | _ => true
  end.

(** ** Exceptions

    An exception value is an instance of an exception class together with the
    arguments it keeps ([e.args]) and its message ([str(e)]).  The classes of
    the Target API are not part of these sources; of a class the embedding
    keeps what the proxy and its caller depend on. *)

(** What calling an exception class on arguments gives: a new instance, of
    which [args] and [str()] are kept, or an exception raised by the
    constructor, a built-in one given by its type name and its message
    ([TypeError] for arguments that do not fit the signature). *)
Inductive Constructed :=
| Instance (args : list Value) (msg : string)
| CtorRaises (type msg : string).

(** [cls_module] and [cls_name] are [__module__] and [__qualname__].
    [cls_is_Exception] is [issubclass(cls, Exception)]: it is false for the
    system-exiting classes that derive from [BaseException] only
    ([KeyboardInterrupt], [SystemExit], [GeneratorExit]), which an
    [except Exception] clause does not catch.  [cls_importable]: the class is
    found under its module and qualified name, as [pickle] needs it; it is
    false for a class defined inside a function.  [cls_call] is the
    constructor; [None] stands for the constructor of [BaseException], which
    keeps its arguments as [args] (all built-in classes, and every class that
    declares no [__init__] of its own). *)
Record ExcClass := mkExcClass {
  cls_module : string;
  cls_name : string;
  cls_is_Exception : bool;
  cls_importable : bool;
  cls_call : option (list Value -> Constructed)
}.

Record PyExc := mkExc {
  exc_class : ExcClass;
  exc_args : list Value;
  exc_msg : string
}.

(** The kind of an exception is the name of its class. *)
Definition exc_type (e : PyExc) : string := cls_name (exc_class e).
Definition exc_module (e : PyExc) : string := cls_module (exc_class e).
(** [isinstance(e, Exception)] *)
Definition exc_is_Exception (e : PyExc) : bool := cls_is_Exception (exc_class e).

(** A built-in [Exception] class, and its instance made with one string. *)
Definition builtin_class (name : string) : ExcClass :=
  mkExcClass "builtins" name true true None.
Definition builtin (type msg : string) : PyExc :=
  mkExc (builtin_class type) [VStr msg] msg.

(** [API.APIError] is declared in API.py; the facade only constructs it, with
    the message as its argument, and raises it in the calling process. *)
Definition APIError (msg : string) : PyExc :=
  mkExc (mkExcClass "pynrfjprog.API" "APIError" true true None) [VStr msg] msg.
Definition TimeoutError (msg : string) : PyExc := builtin "TimeoutError" msg.
Definition AttributeError (msg : string) : PyExc := builtin "AttributeError" msg.
Definition ValueError (msg : string) : PyExc := builtin "ValueError" msg.
Definition RuntimeError (msg : string) : PyExc := builtin "RuntimeError" msg.
(** [str(KeyError(key))] is the repr of the key. *)
Definition KeyError (key : string) : PyExc :=
  mkExc (builtin_class "KeyError") [VStr key] ("'" +:+ key +:+ "'").
Definition SystemExit (msg : string) : PyExc :=
  mkExc (mkExcClass "builtins" "SystemExit" false true None) [VStr msg] msg.
Definition KeyboardInterrupt : PyExc :=
  mkExc (mkExcClass "builtins" "KeyboardInterrupt" false true None) [] "".

Definition newline : string := String (Ascii.ascii_of_nat 10) "".

(** [traceback.format_exc()] for the exception [e] raised below the stack
    frames [frames] (each frame already rendered as its two lines).  The last
    line names the class, with its module unless that is [builtins] or
    [__main__], and the message after a colon unless the message is empty. *)
Definition format_exc (frames : string) (e : PyExc) : string :=
  "Traceback (most recent call last):" +:+ newline +:+ frames
  +:+ (if bool_decide (exc_module e = "builtins" \/ exc_module e = "__main__")
       then exc_type e
       else exc_module e +:+ "." +:+ exc_type e)
  +:+ (if bool_decide (exc_msg e = "") then "" else ": " +:+ exc_msg e)
  +:+ newline.

(** ** Envelopes *)

Definition DEBUG_OUTPUT : bool := false.

(** [_Command(cmd, *args, **kwargs)]: [kwargs] are the keyword arguments
    that reach [**kwargs], so none of them is named [cmd]. *)
Record _Command := mkCommand {
  cmd : string;
  args : list Value;
  kwargs : list (string * Value)
}.

(** [_CommandAck(exception=None, result=None, stacktrace="")] *)
Record _CommandAck := mkCommandAck {
  exception : option PyExc;
  stacktrace : string;
  result : Value
}.

(** ** What [pickle] makes of an acknowledgement

    Whatever goes through a [multiprocessing.Queue] is pickled on the sending
    side and rebuilt on the receiving side.  Values of the kinds above come
    out as they went in.  An exception is pickled as its class, by module and
    name, and its [args]; it is rebuilt by calling the class on those
    arguments.  So [pickle.loads(pickle.dumps(e))] is an equal exception for
    a class with the constructor of [BaseException]; for a class with a
    constructor of its own it is whatever that constructor makes of [e.args],
    which can be an instance with another message, or an exception raised by
    the call; and [pickle.dumps(e)] fails for a class that cannot be found by
    name. *)
Inductive Transfer (A : Type) :=
| Arrives (a : A)
| Fails (e : PyExc)
| Lost.
Arguments Arrives {A} _.
Arguments Fails {A} _.
Arguments Lost {A}.

Definition through_pickle_exc (e : PyExc) : Transfer PyExc :=
  if negb (cls_importable (exc_class e)) then Lost
  else
    match cls_call (exc_class e) with
    | None => Arrives e
    | Some call =>
        match call (exc_args e) with
        | Instance args msg => Arrives (mkExc (exc_class e) args msg)
        | CtorRaises type msg => Fails (builtin type msg)
        end
    end.

(** An acknowledgement is pickled with its three attributes. *)
Definition through_pickle (a : _CommandAck) : Transfer _CommandAck :=
  match exception a with
  | None => Arrives a
  | Some e =>
      match through_pickle_exc e with
      | Arrives e' => Arrives (mkCommandAck (Some e') (stacktrace a) (result a))
      | Fails err => Fails err
      | Lost => Lost
      end
  end.

(** ** The lock

    [threading.Lock] is not reentrant and has no owner; the embedding records
    who holds it so that the environment's part is explicit.  [Held]: acquired
    through [acquire_with_timeout] by the modelled caller and not released.
    [HeldElsewhere r]: held by another thread, which releases it after [t]
    time units when [r = Some t] and never when [r = None]. *)

Inductive Lock :=
| Unlocked
| Held
| HeldElsewhere (release_after : option nat).

(** [lock.acquire(timeout=timeout)]: the returned flag and the lock
    afterwards.  A lock that is free, or freed within the timeout, is taken;
    otherwise the caller has waited [timeout] units for nothing. *)
Definition lock_acquire (timeout : nat) (l : Lock) : bool * Lock :=
  match l with
  | Unlocked => (true, Held)
  | Held => (false, Held)
  | HeldElsewhere (Some t) =>
      if t <=? timeout then (true, Held)
      else (false, HeldElsewhere (Some (t - timeout)))
  | HeldElsewhere None => (false, HeldElsewhere None)
  end.

(** [lock.release()]: [None] stands for the [RuntimeError] of releasing an
    unlocked lock. *)
Definition lock_release (l : Lock) : option Lock :=
  match l with
  | Unlocked => None
  | Held | HeldElsewhere _ => Some Unlocked
  end.

(** ** Queues: [multiprocessing.Queue], with the calling process's [close()] *)

Record Queue (A : Type) := mkQueue {
  items : list A;
  closed : bool
}.
Arguments mkQueue {A} _ _.
Arguments items {A} _.
Arguments closed {A} _.

Definition Queue_new {A : Type} : Queue A := mkQueue [] false.

(** ** Events *)

Inductive Event :=
| EvAcquire (timeout : nat) (acquired : bool)
| EvRelease
| EvCmdPut (c : _Command)
| EvCmdPutClosed (c : _Command)
| EvAckGet (a : _CommandAck)
| EvAckGetRaised (e : PyExc)
| EvAckLost (a : _CommandAck)
| EvAckGetClosed
| EvAckGetBlocked
| EvPrint (s : string)
| EvProcessTerminate
| EvProcessJoin
| EvCmdQueueClose
| EvAckQueueClose
| EvCmdQueueJoinThread
| EvAckQueueJoinThread
| EvWorkerGet (c : _Command)
| EvWorkerPut (a : _CommandAck)
| EvWorkerExit (e : PyExc).

(** How a call ends: it returns, raises, or never returns (it blocks forever
    on the acknowledgement queue). *)
Inductive Outcome (A : Type) :=
| Returned (a : A)
| Raised (e : PyExc)
| Blocked.
Arguments Returned {A} _.
Arguments Raised {A} _.
Arguments Blocked {A}.

(** The constructor's parameters, passed through to [API.API]. *)
Record CtorArgs := mkCtorArgs {
  device_family : Value;
  jlink_arm_dll_path : Value;
  log_flag : bool;
  log_str : Value;
  log_file_path : Value
}.

(** What invoking a Target API method does: return a value, or raise [e]
    with the rendered stack frames below the worker's own. *)
Inductive MethodResult :=
| MReturn (v : Value)
| MRaise (e : PyExc) (frames : string).

(** A bound method of the Target API instance, called with positional and
    keyword arguments on the instance's state. *)
Definition Method (ApiState : Type) : Type :=
  list Value -> list (string * Value) -> ApiState -> MethodResult * ApiState.

(** ** A small Target API

    The scenario of the specification: [answer()] returns 42, [divide(a, b)]
    raises [ZeroDivisionError] for [b = 0], [open] and [close] return nothing,
    and the class carries a constant next to its methods.  The state counts
    the calls the instance has served. *)
Module Demo.

Definition State : Type := nat.

Definition ZeroDivisionError : PyExc := builtin "ZeroDivisionError" "division by zero".
Definition TypeError (msg : string) : PyExc := builtin "TypeError" msg.

Definition frame (name : string) : string :=
  "  File API.py, in " +:+ name +:+ newline.

Definition answer : Method State :=
  fun _ _ n => (MReturn (VInt 42), S n).

Definition divide : Method State :=
  fun args _ n =>
    match args with
    | [VInt a; VInt b] =>
        if (b =? 0)%Z then (MRaise ZeroDivisionError (frame "divide"), S n)
        else (MReturn (VInt (a / b)), S n)
    | _ => (MRaise (TypeError "divide() takes two integers") (frame "divide"), S n)
    end.

Definition open : Method State := fun _ _ n => (MReturn VNone, S n).
Definition close : Method State := fun _ _ n => (MReturn VNone, S n).

(** A method that ends the interpreter: it raises [SystemExit]. *)
Definition halt : Method State :=
  fun _ _ n => (MRaise (SystemExit "") (frame "halt"), S n).

Definition API_new (a : CtorArgs) : option State := Some 0.

Definition API_class_attrs : gset string :=
  {[ "answer"; "divide"; "open"; "close"; "_DEFAULT_JLINK_SPEED_KHZ" ]}.

Definition api_functions : gmap string (Method State) :=
  {[ "answer" := answer; "divide" := divide; "open" := open; "close" := close ]}.

Definition halting_functions : gmap string (Method State) :=
  <["halt" := halt]> api_functions.

(** A [close] that fails, as when the probe is already gone. *)
Definition failing_close : Method State :=
  fun _ _ n => (MRaise (APIError "close failed") (frame "close"), S n).

Definition failing_close_functions : gmap string (Method State) :=
  <["close" := failing_close]> api_functions.

(** A constructor that raises: no instance comes to exist. *)
Definition failing_API_new (a : CtorArgs) : option State := None.

(** An error class whose constructor takes two parameters, [code] and
    [detail], and hands one fixed message on to [Exception.__init__]: the
    [args] of an instance hold that message alone, and calling the class on
    them, as unpickling does, is a call with one argument too few. *)
Definition StrictError_call (args : list Value) : Constructed :=
  match args with
  | [] => CtorRaises "TypeError"
            "StrictError.__init__() missing 2 required positional arguments: 'code' and 'detail'"
  | [_] => CtorRaises "TypeError"
             "StrictError.__init__() missing 1 required positional argument: 'detail'"
  | [_; _] => Instance [VStr "strict check failed"] "strict check failed"
  | _ => CtorRaises "TypeError"
           ("StrictError.__init__() takes 3 positional arguments but "
            +:+ pretty (S (length args)) +:+ " were given")
  end.

Definition StrictError_class : ExcClass :=
  mkExcClass "pynrfjprog.API" "StrictError" true true (Some StrictError_call).

(** [StrictError(7, 'bad')] *)
Definition StrictError : PyExc :=
  mkExc StrictError_class [VStr "strict check failed"] "strict check failed".

Definition check : Method State :=
  fun _ _ n => (MRaise StrictError (frame "check"), S n).

Definition strict_functions : gmap string (Method State) :=
  <["check" := check]> api_functions.

(** [type(v).__name__] *)
Definition type_name (v : Value) : string :=
  match v with
  | VNone => "NoneType"
  | VBool _ => "bool"
  | VInt _ => "int"
  | VStr _ => "str"
  | VList _ => "list"
  end.

Definition double_quote : string := String (Ascii.ascii_of_nat 34) "".

(** An error class whose constructor takes one parameter, [what], and hands
    the string ['cannot ' + what] on to [Exception.__init__]: the [args] of
    an instance hold the message, and calling the class on them puts the
    prefix in front once more. *)
Definition CodedError_call (args : list Value) : Constructed :=
  match args with
  | [] => CtorRaises "TypeError"
            "CodedError.__init__() missing 1 required positional argument: 'what'"
  | [VStr what] => Instance [VStr ("cannot " +:+ what)] ("cannot " +:+ what)
  | [v] => CtorRaises "TypeError"
             ("can only concatenate str (not " +:+ double_quote +:+ type_name v
              +:+ double_quote +:+ ") to str")
  | _ => CtorRaises "TypeError"
           ("CodedError.__init__() takes 2 positional arguments but "
            +:+ pretty (S (length args)) +:+ " were given")
  end.

Definition CodedError_class : ExcClass :=
  mkExcClass "pynrfjprog.API" "CodedError" true true (Some CodedError_call).

(** [CodedError('erase')] *)
Definition CodedError : PyExc :=
  mkExc CodedError_class [VStr "cannot erase"] "cannot erase".

Definition erase : Method State :=
  fun _ _ n => (MRaise CodedError (frame "erase"), S n).

Definition coded_functions : gmap string (Method State) :=
  <["erase" := erase]> api_functions.

(** An error class defined inside the method that raises it: [pickle] cannot
    refer to it by name. *)
Definition ProbeGone : PyExc :=
  mkExc (mkExcClass "pynrfjprog.API" "probe.<locals>.ProbeGone" true false None)
        [VStr "probe gone"] "probe gone".

Definition probe : Method State :=
  fun _ _ n => (MRaise ProbeGone (frame "probe"), S n).

Definition probing_functions : gmap string (Method State) :=
  <["probe" := probe]> api_functions.

Definition runner_frame : string :=
  "  File MultiAPI.py, line 160, in _runner" +:+ newline.

Definition CmdQueue_repr : string :=
  "<multiprocessing.queues.Queue object at 0x7f034c52a410>".
Definition CmdAckQueue_repr : string :=
  "<multiprocessing.queues.Queue object at 0x7f034c52a8d0>".

Definition ctor_args : CtorArgs := mkCtorArgs (VStr "NRF52") VNone false VNone VNone.

End Demo.

Section Proxy.

(** The Target API ([API.API], declared in API.py) is a parameter: the state
    of its one instance, its constructor, the names the class defines
    ([hasattr(API.API, name)]), and the bound methods of the instance
    ([dict(inspect.getmembers(api, inspect.ismethod))]). *)
Variable ApiState : Type.
Variable API_new : CtorArgs -> option ApiState.
Variable API_class_attrs : gset string.
Variable api_functions : gmap string (Method ApiState).
(** The rendered stack frame of [_runner] itself (line 160), which depends on
    where the module is installed. *)
Variable runner_frame : string.
(** [repr] of the two queue objects, of the form
    [<multiprocessing.queues.Queue object at 0x...>] with the address of
    each. *)
Variable CmdQueue_repr : string.
Variable CmdAckQueue_repr : string.

(** The worker process: running with its API instance, or gone. *)
Inductive Process :=
| Running (api : ApiState)
| Dead.

Record World := mkWorld {
  _CmdQueue : Queue _Command;
  _CmdAckQueue : Queue _CommandAck;
  _runner_process : Process;
  _terminated : bool;
  _exec_lock : Lock;
  log : list Event
}.

Definition set_CmdQueue (q : Queue _Command) (w : World) : World :=
  mkWorld q (_CmdAckQueue w) (_runner_process w) (_terminated w) (_exec_lock w) (log w).
Definition set_CmdAckQueue (q : Queue _CommandAck) (w : World) : World :=
  mkWorld (_CmdQueue w) q (_runner_process w) (_terminated w) (_exec_lock w) (log w).
Definition set_runner_process (p : Process) (w : World) : World :=
  mkWorld (_CmdQueue w) (_CmdAckQueue w) p (_terminated w) (_exec_lock w) (log w).
Definition set_terminated (b : bool) (w : World) : World :=
  mkWorld (_CmdQueue w) (_CmdAckQueue w) (_runner_process w) b (_exec_lock w) (log w).
Definition set_exec_lock (l : Lock) (w : World) : World :=
  mkWorld (_CmdQueue w) (_CmdAckQueue w) (_runner_process w) (_terminated w) l (log w).
Definition emit (evs : list Event) (w : World) : World :=
  mkWorld (_CmdQueue w) (_CmdAckQueue w) (_runner_process w) (_terminated w)
          (_exec_lock w) (log w ++ evs).

(** ** The monad of facade code: state passing with exceptions *)

Definition M (A : Type) : Type := World -> Outcome A * World.

Definition ret {A : Type} (a : A) : M A := fun w => (Returned a, w).
Definition raise {A : Type} (e : PyExc) : M A := fun w => (Raised e, w).
Definition bind {A B : Type} (m : M A) (k : A -> M B) : M B :=
  fun w =>
    match m w with
    | (Returned a, w') => k a w'
    | (Raised e, w') => (Raised e, w')
    | (Blocked, w') => (Blocked, w')
    end.

Notation "x <- m ;; k" := (bind m (fun x => k))
  (at level 100, m at next level, right associativity).
Notation "m ;;; k" := (bind m (fun _ => k))
  (at level 100, right associativity).

(** ** The worker: [_runner] *)

(** The expression [api_functions[cmd.cmd]( *cmd.args, **cmd.kwargs )]: a
    name missing from the dictionary raises [KeyError] in [_runner]'s own
    frame. *)
Definition invoke (c : _Command) (api : ApiState) : MethodResult * ApiState :=
  match api_functions !! cmd c with
  | None => (MRaise (KeyError (cmd c)) "", api)
  | Some f => f (args c) (kwargs c) api
  end.

(** One pass of the loop body for the dequeued command [c]: the
    acknowledgement to push, or the exception that [except Exception] lets
    through, which ends the worker. *)
Definition _runner_body (c : _Command) (api : ApiState)
  : (_CommandAck + PyExc) * ApiState :=
  match invoke c api with
  | (MReturn res, api') => (inl (mkCommandAck None "" res), api')
  | (MRaise e frames, api') =>
      if exc_is_Exception e
      then (inl (mkCommandAck (Some e) (format_exc (runner_frame +:+ frames) e) VNone), api')
      else (inr e, api')
  end.

(** [cmd = self._CmdQueue.get()] in the worker, for the head [c] of the
    queue.  The command crosses pickled; its attributes are a string and
    values, which come out as they went in. *)
Definition worker_get (c : _Command) (rest : list _Command) (w : World) : World :=
  emit [EvWorkerGet c] (set_CmdQueue (mkQueue rest (closed (_CmdQueue w))) w).

(** [self._CmdAckQueue.put(ack)] in the worker: it goes through the worker's
    own handle of the queue, which the facade's [close()] does not shut.
    [put] appends the object to the buffer of the queue and returns; the
    queue's feeder thread pickles it from there on its way to the caller (see
    [receive]). *)
Definition worker_put (ack : _CommandAck) (w : World) : World :=
  emit [EvWorkerPut ack]
    (set_CmdAckQueue (mkQueue (items (_CmdAckQueue w) ++ [ack]) (closed (_CmdAckQueue w))) w).

(** [while True]: the worker takes the pending commands one by one and blocks
    in [get] when none is left; an exception that leaves the loop body ends
    the process. *)
Fixpoint _runner_loop (pending : list _Command) (api : ApiState) (w : World) : World :=
  match pending with
  | [] => set_runner_process (Running api) w
  | c :: rest =>
      let w1 := worker_get c rest w in
      match _runner_body c api with
      | (inl ack, api') => _runner_loop rest api' (worker_put ack w1)
      | (inr e, _) => emit [EvWorkerExit e] (set_runner_process Dead w1)
      end
  end.

(** The worker runs as far as it can: a dead process does nothing. *)
Definition run_worker (w : World) : World :=
  match _runner_process w with
  | Running api => _runner_loop (items (_CmdQueue w)) api w
  | Dead => w
  end.

(** ** Primitives of the facade *)

(** [self._exec_lock.acquire(timeout=timeout)] *)
Definition exec_lock_acquire (timeout : nat) : M bool := fun w =>
  let '(got, l) := lock_acquire timeout (_exec_lock w) in
  (Returned got, emit [EvAcquire timeout got] (set_exec_lock l w)).

(** [self._exec_lock.release()] *)
Definition exec_lock_release : M unit := fun w =>
  match lock_release (_exec_lock w) with
  | Some l => (Returned tt, emit [EvRelease] (set_exec_lock l w))
  | None => (Raised (RuntimeError "release unlocked lock"), emit [EvRelease] w)
  end.

(** What [put] and [get] raise on a queue that this process has closed. *)
Definition Queue_is_closed (queue_repr : string) : PyExc :=
  ValueError ("Queue " +:+ queue_repr +:+ " is closed").

(** [self._CmdQueue.put(c)] *)
Definition CmdQueue_put (c : _Command) : M unit := fun w =>
  if closed (_CmdQueue w)
  then (Raised (Queue_is_closed CmdQueue_repr), emit [EvCmdPutClosed c] w)
  else (Returned tt,
        emit [EvCmdPut c] (set_CmdQueue (mkQueue (items (_CmdQueue w) ++ [c]) false) w)).

(** What [get] receives of the acknowledgements [pending] in the queue.  The
    feeder thread of the worker pickles them in order and writes them to the
    pipe; one it cannot pickle is dropped there (the error is printed in the
    worker), and the caller goes on waiting.  [get] reads the next message
    and unpickles it, which rebuilds the acknowledgement or raises; the
    message is consumed either way.  With nothing left to receive the caller
    waits forever. *)
Fixpoint receive (pending : list _CommandAck) (w : World) : Outcome _CommandAck * World :=
  match pending with
  | [] => (Blocked, emit [EvAckGetBlocked] w)
  | ack :: rest =>
      let w' := set_CmdAckQueue (mkQueue rest false) w in
      match through_pickle ack with
      | Arrives ack' => (Returned ack', emit [EvAckGet ack'] w')
      | Fails e => (Raised e, emit [EvAckGetRaised e] w')
      | Lost => receive rest (emit [EvAckLost ack] w')
      end
  end.

(** [self._CmdAckQueue.get()]: blocking, without a timeout.  While the caller
    waits the worker runs. *)
Definition CmdAckQueue_get : M _CommandAck := fun w =>
  if closed (_CmdAckQueue w)
  then (Raised (Queue_is_closed CmdAckQueue_repr), emit [EvAckGetClosed] w)
  else
    let w1 := run_worker w in
    receive (items (_CmdAckQueue w1)) w1.

(** [print(s)] *)
Definition print (s : string) : M unit := fun w => (Returned tt, emit [EvPrint s] w).

(** ** [acquire_with_timeout]

    The generator behind [@contextmanager]: the code before [yield] runs on
    entering the [with] block, [body] is the block, and the code after
    [yield] runs when the block completes.  An exception raised by the block
    is thrown into the generator at the [yield]; no [try] surrounds it, so it
    propagates at once and the statements after the [yield] do not run.
    The [lock] argument is the facade's [_exec_lock], the one lock of the
    world. *)
Definition acquire_with_timeout {A : Type} (timeout : nat) (body : bool -> M A) : M A :=
  result <- exec_lock_acquire timeout ;;
  r <- body result ;;
  (if result : bool then exec_lock_release else ret tt) ;;;
  ret r.

(** ** [MultiAPI] *)

(** [_api_setup] builds the API instance; a constructor that raises ends the
    worker before its loop. *)
Definition _api_setup (a : CtorArgs) : option ApiState := API_new a.

Definition __init__ (a : CtorArgs) : World :=
  let a' := mkCtorArgs (device_family a) (jlink_arm_dll_path a)
                       (if DEBUG_OUTPUT then true else log_flag a)
                       (log_str a) (log_file_path a) in
  mkWorld Queue_new Queue_new
          (match _api_setup a' with Some api => Running api | None => Dead end)
          false Unlocked [].

Definition is_alive : M bool := fun w => (Returned (negb (_terminated w)), w).

Definition runner_process_terminate : M unit := fun w =>
  (Returned tt, emit [EvProcessTerminate] (set_runner_process Dead w)).
Definition runner_process_join : M unit := fun w =>
  (Returned tt, emit [EvProcessJoin] w).
Definition CmdQueue_close : M unit := fun w =>
  (Returned tt, emit [EvCmdQueueClose] (set_CmdQueue (mkQueue (items (_CmdQueue w)) true) w)).
Definition CmdAckQueue_close : M unit := fun w =>
  (Returned tt,
   emit [EvAckQueueClose] (set_CmdAckQueue (mkQueue (items (_CmdAckQueue w)) true) w)).
Definition CmdQueue_join_thread : M unit := fun w =>
  (Returned tt, emit [EvCmdQueueJoinThread] w).
Definition CmdAckQueue_join_thread : M unit := fun w =>
  (Returned tt, emit [EvAckQueueJoinThread] w).
Definition assign_terminated (b : bool) : M unit := fun w =>
  (Returned tt, set_terminated b w).

(** Lines 104-106 of [terminate]: the worker is killed and both queues are
    closed, the flag not yet set. *)
Definition terminate_shutdown : M unit :=
  runner_process_terminate ;;;
  CmdQueue_close ;;;
  CmdAckQueue_close.

Definition terminate : M unit :=
  alive <- is_alive ;;
  if alive : bool then
    terminate_shutdown ;;;
    runner_process_join ;;;
    CmdAckQueue_join_thread ;;;
    CmdQueue_join_thread ;;;
    assign_terminated true
  else ret tt.

(** [_execute(func_name, *args, **kwargs)], with the arguments as the call
    bound them. *)
Definition _execute (func_name : string) (args : list Value)
    (kwargs : list (string * Value)) : M Value :=
  alive <- is_alive ;;
  if negb alive then raise (APIError "Runner process terminated, API is unavailable.")
  else
    ack <- acquire_with_timeout 10 (fun acquired : bool =>
             if acquired then
               CmdQueue_put (mkCommand func_name args kwargs) ;;;
               CmdAckQueue_get
             else
               raise (TimeoutError "CmdQueue is full and was not cleared in 10 seconds!")) ;;
    match exception ack with
    | Some e => print (stacktrace ack) ;;; raise e
    | None => if is_not_None (result ack) then ret (result ack) else ret VNone
    end.

(** What attribute access hands back: [lambda *args, **kwargs: ...]. *)
Definition Callable : Type := list Value -> list (string * Value) -> M Value.

Definition __getattr__ (name : string) : M Callable :=
  if bool_decide (name ∈ API_class_attrs)
  then ret (fun args kwargs => _execute name args kwargs)
  else raise (AttributeError ("'MultiAPI' object has no attribute '" +:+ name +:+ "'")).

(** A call [self.name( *args, **kwargs )] for a name the facade does not define itself:
    attribute access, then the call. *)
Definition forward (name : string) (args : list Value) (kwargs : list (string * Value))
  : M Value :=
  f <- __getattr__ name ;;
  f args kwargs.

(** [__enter__] returns [self]; the embedding returns nothing. *)
Definition __enter__ : M unit :=
  forward "open" [] [] ;;;
  ret tt.

Definition __exit__ : M unit :=
  forward "close" [] [] ;;;
  terminate.

(** ** Driving the facade *)

(** The facade's state when nothing is in flight: live, lock free, both queues
    open and empty, the worker running on [api]. *)
Definition idle_world (api : ApiState) (lg : list Event) : World :=
  mkWorld Queue_new Queue_new (Running api) false Unlocked lg.

(** What a caller can do with a facade. *)
Inductive FacadeOp :=
| OpGetattr (name : string)
| OpForward (name : string) (args : list Value) (kwargs : list (string * Value))
| OpExecute (name : string) (args : list Value) (kwargs : list (string * Value))
| OpIsAlive
| OpTerminate
| OpEnter
| OpExit.

Definition run_op (op : FacadeOp) (w : World) : World :=
  match op with
  | OpGetattr name => (__getattr__ name w).2
  | OpForward name args kwargs => (forward name args kwargs w).2
  | OpExecute name args kwargs => (_execute name args kwargs w).2
  | OpIsAlive => (is_alive w).2
  | OpTerminate => (terminate w).2
  | OpEnter => (__enter__ w).2
  | OpExit => (__exit__ w).2
  end.

(** The operations whose body calls [terminate()]: the method itself and
    [__exit__], whose last statement is [self.terminate()]. *)
Definition calls_terminate (op : FacadeOp) : bool :=
  match op with
  | OpTerminate | OpExit => true
  | _ => false
  end.

(** What [is_alive()] answers before the first operation and after each one. *)
Fixpoint alive_trace (ops : list FacadeOp) (w : World) : list bool :=
  negb (_terminated w) ::
  match ops with
  | [] => []
  | op :: rest => alive_trace rest (run_op op w)
  end.

(** One thread submits the commands one after the other; a call that raises
    is caught and the next one made, a call that never returns ends the run. *)
Fixpoint submit_all (cs : list _Command) (w : World) : list (Outcome Value) * World :=
  match cs with
  | [] => ([], w)
  | c :: rest =>
      match _execute (cmd c) (args c) (kwargs c) w with
      | (Blocked, w') => ([Blocked], w')
      | (o, w') => let '(os, w'') := submit_all rest w' in (o :: os, w'')
      end
  end.

(** The events of one complete round trip of command [c], answered by the
    worker with [a], which reaches the caller as [a']. *)
Definition round_trip (c : _Command) (a a' : _CommandAck) : list Event :=
  [EvAcquire 10 true; EvCmdPut c; EvWorkerGet c; EvWorkerPut a; EvAckGet a'; EvRelease]
  ++ match exception a' with
     | Some _ => [EvPrint (stacktrace a')]
     | None => []
     end.

(** What the caller of [_execute] gets for the acknowledgement [a]. *)
Definition delivered (a : _CommandAck) : Outcome Value :=
  match exception a with
  | Some e => Raised e
  | None => Returned (result a)
  end.

(** The commands the worker took, the acknowledgements it pushed, and the
    acknowledgements the caller received, in the order the log has them. *)
Definition executed (lg : list Event) : list _Command :=
  omap (fun ev => match ev with EvWorkerGet c => Some c | _ => None end) lg.

Definition pushed (lg : list Event) : list _CommandAck :=
  omap (fun ev => match ev with EvWorkerPut a => Some a | _ => None end) lg.

Definition received (lg : list Event) : list _CommandAck :=
  omap (fun ev => match ev with EvAckGet a => Some a | _ => None end) lg.

(** The reference the worker is compared with, in the words of the
    specification: the operations themselves, executed in the order
    submitted, and the acknowledgement each one is owed.

    The operation a command stands for: the bound method of that name,
    called on the command's arguments; a name that is no bound method of the
    instance gives the [KeyError] of the failed lookup. *)
Definition operation_of (c : _Command) (api : ApiState) : MethodResult * ApiState :=
  match api_functions !! cmd c with
  | Some f => f (args c) (kwargs c) api
  | None => (MRaise (KeyError (cmd c)) "", api)
  end.

(** The operations called one after the other on the instance, each on the
    state the one before left: what every call gives, and the state at the
    end. *)
Fixpoint call_in_order (cs : list _Command) (api : ApiState)
  : list MethodResult * ApiState :=
  match cs with
  | [] => ([], api)
  | c :: rest =>
      let '(r, api1) := operation_of c api in
      let '(rs, api2) := call_in_order rest api1 in
      (r :: rs, api2)
  end.

(** The acknowledgement for what a call gave: the result, or the error with
    its trace. *)
Definition ack_of (r : MethodResult) : _CommandAck :=
  match r with
  | MReturn res => mkCommandAck None "" res
  | MRaise e frames => mkCommandAck (Some e) (format_exc (runner_frame +:+ frames) e) VNone
  end.

(** A call is answered when it returns, or raises an error that the worker
    catches and that pickle carries to the caller. *)
Definition answered (r : MethodResult) : bool :=
  match r with
  | MReturn _ => true
  | MRaise e _ =>
      exc_is_Exception e
      && match through_pickle_exc e with Arrives _ => true | _ => false end
  end.

(** The acknowledgement as the caller receives it. *)
Definition arrived (a : _CommandAck) : _CommandAck :=
  match through_pickle a with
  | Arrives a' => a'
  | _ => a
  end.

(** The events of the complete round trips of the commands [cs] answered
    with [acks]. *)
Definition round_trips (cs : list _Command) (acks : list _CommandAck) : list Event :=
  concat (zip_with (fun c a => round_trip c a (arrived a)) cs acks).

(** The Target API raises only what [except Exception] catches. *)
Definition raises_only_errors : Prop :=
  forall c api e frames api',
    invoke c api = (MRaise e frames, api') -> exc_is_Exception e = true.

(** ** Frame lemmas: what leaves the liveness flag alone *)

Definition keeps_flag {A : Type} (m : M A) : Prop :=
  forall w, _terminated (m w).2 = _terminated w.

Lemma keeps_flag_ret {A : Type} (a : A) : keeps_flag (ret a).
Proof. intros w; reflexivity. Qed.

Lemma keeps_flag_raise {A : Type} (e : PyExc) : keeps_flag (@raise A e).
Proof. intros w; reflexivity. Qed.

Lemma keeps_flag_bind {A B : Type} (m : M A) (k : A -> M B) :
  keeps_flag m -> (forall a, keeps_flag (k a)) -> keeps_flag (bind m k).
Proof.
  intros Hm Hk w. unfold bind. specialize (Hm w).
  destruct (m w) as [[a|e|] w1]; simpl in *; try assumption.
  rewrite Hk. assumption.
Qed.

Lemma _runner_loop_terminated pending :
  forall api w, _terminated (_runner_loop pending api w) = _terminated w.
Proof.
  induction pending as [|c rest IH]; intros api w; simpl; [reflexivity|].
  destruct (_runner_body c api) as [[ack|e] api']; [rewrite IH|]; reflexivity.
Qed.

Lemma run_worker_terminated w : _terminated (run_worker w) = _terminated w.
Proof.
  unfold run_worker. destruct (_runner_process w); [apply _runner_loop_terminated|reflexivity].
Qed.

Lemma receive_terminated pending :
  forall w, _terminated (receive pending w).2 = _terminated w.
Proof.
  induction pending as [|ack rest IH]; intros w; simpl; [reflexivity|].
  destruct (through_pickle ack); [reflexivity|reflexivity|]. rewrite IH. reflexivity.
Qed.

Lemma keeps_flag_CmdAckQueue_get : keeps_flag CmdAckQueue_get.
Proof.
  intros w. unfold CmdAckQueue_get.
  destruct (closed (_CmdAckQueue w)); [reflexivity|].
  cbv zeta. rewrite receive_terminated. apply run_worker_terminated.
Qed.

Lemma keeps_flag_CmdQueue_put c : keeps_flag (CmdQueue_put c).
Proof. intros w. unfold CmdQueue_put. destruct (closed (_CmdQueue w)); reflexivity. Qed.

Lemma keeps_flag_exec_lock_acquire t : keeps_flag (exec_lock_acquire t).
Proof.
  intros w. unfold exec_lock_acquire.
  destruct (lock_acquire t (_exec_lock w)); reflexivity.
Qed.

Lemma keeps_flag_exec_lock_release : keeps_flag exec_lock_release.
Proof.
  intros w. unfold exec_lock_release. destruct (lock_release (_exec_lock w)); reflexivity.
Qed.

Lemma keeps_flag_acquire_with_timeout {A : Type} t (body : bool -> M A) :
  (forall b, keeps_flag (body b)) -> keeps_flag (acquire_with_timeout t body).
Proof.
  intros Hb. unfold acquire_with_timeout.
  apply keeps_flag_bind; [apply keeps_flag_exec_lock_acquire|]. intros got.
  apply keeps_flag_bind; [apply Hb|]. intros r.
  apply keeps_flag_bind; [|intros; apply keeps_flag_ret].
  destruct got; [apply keeps_flag_exec_lock_release|apply keeps_flag_ret].
Qed.

Lemma keeps_flag_execute name args kwargs : keeps_flag (_execute name args kwargs).
Proof.
  unfold _execute. apply keeps_flag_bind; [intros w; reflexivity|]. intros alive.
  destruct (negb alive); [apply keeps_flag_raise|].
  apply keeps_flag_bind.
  - apply keeps_flag_acquire_with_timeout. intros [|]; [|apply keeps_flag_raise].
    apply keeps_flag_bind; [apply keeps_flag_CmdQueue_put|].
    intros _. apply keeps_flag_CmdAckQueue_get.
  - intros ack. destruct (exception ack).
    + apply keeps_flag_bind; [intros w; reflexivity|]. intros _. apply keeps_flag_raise.
    + destruct (is_not_None (result ack)); apply keeps_flag_ret.
Qed.

Lemma keeps_flag_getattr name : keeps_flag (__getattr__ name).
Proof.
  unfold __getattr__. destruct (bool_decide _); [apply keeps_flag_ret|apply keeps_flag_raise].
Qed.

Lemma keeps_flag_forward name args kwargs : keeps_flag (forward name args kwargs).
Proof.
  intros w. unfold forward, bind, __getattr__.
  destruct (bool_decide _); simpl; [apply keeps_flag_execute|reflexivity].
Qed.

Lemma terminate_sets_flag w : _terminated (terminate w).2 = true.
Proof. destruct w as [cq aq p [|] l lg]; reflexivity. Qed.

Lemma terminate_when_terminated w :
  _terminated w = true -> terminate w = (Returned tt, w).
Proof. destruct w as [cq aq p t l lg]; simpl; intros ->; reflexivity. Qed.

(** ** After [terminate()] *)

(** C3. After [terminate()] has completed, [_execute] raises
    [APIError("Runner process terminated, API is unavailable.")] and leaves
    the world exactly as it was: the command queue is untouched (no envelope
    enqueued), the lock was neither tried nor taken, and the log records no
    lock or channel event.  A call forwarded through attribute access fails
    the same way for a name of the Target API class (and with
    [AttributeError] for any other name), the world again untouched. *)
Theorem execute_after_terminate_is_unavailable
    (w : World) (func_name : string) (args : list Value) (kwargs : list (string * Value)) :
  let w' := (terminate w).2 in
  let unavailable := APIError "Runner process terminated, API is unavailable." in
  _execute func_name args kwargs w' = (Raised unavailable, w')
  /\ forward func_name args kwargs w'
     = (if bool_decide (func_name ∈ API_class_attrs)
        then Raised unavailable
        else Raised (AttributeError
                       ("'MultiAPI' object has no attribute '" +:+ func_name +:+ "'")),
        w').
Proof.
  intros w' unavailable. pose proof (terminate_sets_flag w) as H. fold w' in H.
  assert (Hexec : _execute func_name args kwargs w' = (Raised unavailable, w')).
  { unfold _execute, bind, is_alive. rewrite H. reflexivity. }
  split; [exact Hexec|].
  unfold forward, bind, __getattr__.
  destruct (bool_decide (func_name ∈ API_class_attrs)); [exact Hexec|reflexivity].
Qed.

(** C7. [terminate()] returns without raising; a second call, and any number
    of further calls, returns without raising and leaves the state of the
    first call unchanged; in that state [is_alive()] answers false and still
    changes nothing. *)
Theorem terminate_idempotent (w : World) :
  let w1 := (terminate w).2 in
  terminate w = (Returned tt, w1)
  /\ terminate w1 = (Returned tt, w1)
  /\ (forall n, Nat.iter n (fun v => (terminate v).2) w1 = w1)
  /\ is_alive w1 = (Returned false, w1).
Proof.
  intros w1. pose proof (terminate_sets_flag w) as H. fold w1 in H.
  assert (Hagain : terminate w1 = (Returned tt, w1))
    by (apply terminate_when_terminated; exact H).
  repeat split.
  - subst w1. destruct w as [cq aq p [|] l lg]; reflexivity.
  - exact Hagain.
  - induction n as [|n IH]; simpl; [reflexivity|]. rewrite IH, Hagain. reflexivity.
  - unfold is_alive. rewrite H. reflexivity.
Qed.

(** ** The liveness flag *)

Lemma run_op_keeps_flag op w :
  calls_terminate op = false -> _terminated (run_op op w) = _terminated w.
Proof.
  destruct op; simpl; intros Hc; try discriminate.
  - apply keeps_flag_getattr.
  - apply keeps_flag_forward.
  - apply keeps_flag_execute.
  - reflexivity.
  - unfold __enter__. apply keeps_flag_bind; [apply keeps_flag_forward|].
    intros; apply keeps_flag_ret.
Qed.

Lemma exit_runs_terminate w :
  (__exit__ w).2 = (forward "close" [] [] w).2
  \/ exists w1, _terminated w1 = _terminated w /\ __exit__ w = terminate w1.
Proof.
  unfold __exit__, bind.
  pose proof (keeps_flag_forward "close" [] [] w) as H.
  destruct (forward "close" [] [] w) as [[v|e|] w1]; simpl in H.
  - right. exists w1. split; [exact H|reflexivity].
  - left. reflexivity.
  - left. reflexivity.
Qed.

Lemma run_op_monotonic op w :
  _terminated w = true -> _terminated (run_op op w) = true.
Proof.
  intros Ht. destruct (calls_terminate op) eqn:Hc.
  - destruct op; try discriminate; simpl.
    + apply terminate_sets_flag.
    + destruct (exit_runs_terminate w) as [-> | (w1 & H1 & ->)].
      * rewrite keeps_flag_forward. exact Ht.
      * apply terminate_sets_flag.
  - rewrite run_op_keeps_flag by exact Hc. exact Ht.
Qed.

Lemma alive_trace_terminated ops :
  forall w, _terminated w = true ->
    alive_trace ops w = replicate (S (length ops)) false.
Proof.
  induction ops as [|op rest IH]; intros w Ht; simpl; rewrite Ht; simpl; [reflexivity|].
  f_equal. apply IH. apply run_op_monotonic. exact Ht.
Qed.

(** C9. The flag [_terminated] is false when the constructor returns and true
    when [terminate()] returns; once true, no operation of the facade makes
    it false again; an operation that does not call [terminate()] leaves it
    as it is, and [__exit__] changes it only through the [terminate()] call
    it ends with; so along any sequence of operations [is_alive()] answers
    true some number of times and false from then on. *)
Theorem liveness_flag_is_monotonic :
  (forall a, _terminated (__init__ a) = false)
  /\ (forall w, _terminated (terminate w).2 = true)
  /\ (forall op w, _terminated w = true -> _terminated (run_op op w) = true)
  /\ (forall op w, calls_terminate op = false ->
        _terminated (run_op op w) = _terminated w)
  /\ (forall w, (__exit__ w).2 = (forward "close" [] [] w).2
        \/ exists w1, _terminated w1 = _terminated w /\ __exit__ w = terminate w1)
  /\ (forall ops w, exists k m,
        alive_trace ops w = replicate k true ++ replicate m false).
Proof.
  split; [reflexivity|].
  split; [exact terminate_sets_flag|].
  split; [exact run_op_monotonic|].
  split; [exact run_op_keeps_flag|].
  split; [exact exit_runs_terminate|].
  induction ops as [|op rest IH]; intros w.
  - destruct (_terminated w) eqn:Ht.
    + exists 0, 1. simpl. rewrite Ht. reflexivity.
    + exists 1, 0. simpl. rewrite Ht. reflexivity.
  - destruct (_terminated w) eqn:Ht.
    + exists 0, (S (length (op :: rest))).
      rewrite alive_trace_terminated by exact Ht. reflexivity.
    + destruct (IH (run_op op w)) as (k & m & Hkm).
      exists (S k), m. simpl. rewrite Ht, Hkm. reflexivity.
Qed.

(** ** Attribute access *)

(** C10. For a name the Target API class defines, attribute access returns a
    callable and leaves the world exactly as it was (no channel traffic, no
    lock event, the flag untouched); calling what it returned is
    [_execute] with that name and the given arguments. *)
Theorem getattr_returns_callable_without_effect (name : string) (w : World) :
  name ∈ API_class_attrs ->
  exists f : Callable,
    __getattr__ name w = (Returned f, w)
    /\ forall args kwargs, f args kwargs = _execute name args kwargs.
Proof.
  intros Hin. eexists. split.
  - unfold __getattr__. rewrite bool_decide_eq_true_2 by exact Hin. reflexivity.
  - reflexivity.
Qed.

(** ** One call on an idle facade *)

Arguments _runner_body : simpl never.

(** Simplify by evaluation: the step is checked by the virtual machine, which
    evaluates the nested state updates once, innermost first. *)
Ltac vm_simpl :=
  match goal with
  | |- ?G => let G' := eval simpl in G in refine ((_ : G') <: G)
  end.

(** Evaluate a closed chain of state updates, leaving list appends folded. *)
Ltac vm_compute_world :=
  match goal with
  | |- ?G =>
      let G' := eval cbv beta iota zeta delta
        [raise ret bind print is_alive terminate terminate_shutdown
         runner_process_terminate runner_process_join CmdQueue_close CmdAckQueue_close
         CmdQueue_join_thread CmdAckQueue_join_thread assign_terminated
         exec_lock_release lock_release worker_put worker_get receive emit negb
         set_exec_lock set_CmdAckQueue set_CmdQueue set_runner_process set_terminated
         idle_world Queue_new _CmdQueue _CmdAckQueue _runner_process _terminated
         _exec_lock log items closed exception stacktrace result fst snd] in G in
      refine ((_ : G') <: G)
  end.

(** Expose the record behind the setters. *)
Ltac unfold_world :=
  match goal with
  | |- ?G =>
      let G' := eval cbv beta iota zeta delta
        [raise ret print exec_lock_release lock_release worker_put worker_get emit
         set_exec_lock set_CmdAckQueue set_CmdQueue set_runner_process set_terminated
         idle_world Queue_new _CmdQueue _CmdAckQueue _runner_process _terminated
         _exec_lock log items closed exception stacktrace result] in G in
      refine ((_ : G') <: G)
  end.

Lemma execute_round_trip (c : _Command) (api api' : ApiState) (a a' : _CommandAck)
    (lg : list Event) :
  _runner_body c api = (inl a, api') ->
  through_pickle a = Arrives a' ->
  _execute (cmd c) (args c) (kwargs c) (idle_world api lg)
  = (delivered a', idle_world api' (lg ++ round_trip c a a')).
Proof.
  intros Hbody Hp. destruct c as [name args kwargs].
  unfold _execute, acquire_with_timeout, bind, is_alive, idle_world, delivered, round_trip.
  unfold CmdQueue_put, CmdAckQueue_get, exec_lock_acquire, run_worker. simpl.
  rewrite Hbody. vm_simpl. rewrite Hp.
  destruct a' as [[e|] tb res]; vm_simpl.
  - unfold_world. repeat rewrite <- app_assoc. reflexivity.
  - destruct res; vm_simpl; unfold_world;
      repeat rewrite <- app_assoc; rewrite ?app_nil_r; reflexivity.
Qed.

(** The acknowledgement that does not survive unpickling: [get] raises
    inside the guard, so the lock stays held. *)
Lemma execute_unpickle_raises (c : _Command) (api api' : ApiState) (a : _CommandAck)
    (err : PyExc) (lg : list Event) :
  _runner_body c api = (inl a, api') ->
  through_pickle a = Fails err ->
  _execute (cmd c) (args c) (kwargs c) (idle_world api lg)
  = (Raised err,
     mkWorld Queue_new Queue_new (Running api') false Held
       (lg ++ [EvAcquire 10 true; EvCmdPut c; EvWorkerGet c; EvWorkerPut a;
               EvAckGetRaised err])).
Proof.
  intros Hbody Hp. destruct c as [name args kwargs].
  unfold _execute, acquire_with_timeout, bind, is_alive, idle_world.
  unfold CmdQueue_put, CmdAckQueue_get, exec_lock_acquire, run_worker. simpl.
  rewrite Hbody. vm_simpl. rewrite Hp. unfold_world.
  repeat rewrite <- app_assoc. reflexivity.
Qed.

(** The acknowledgement that cannot be pickled never leaves the worker: the
    caller waits forever, the lock held. *)
Lemma execute_ack_lost (c : _Command) (api api' : ApiState) (a : _CommandAck)
    (lg : list Event) :
  _runner_body c api = (inl a, api') ->
  through_pickle a = Lost ->
  _execute (cmd c) (args c) (kwargs c) (idle_world api lg)
  = (Blocked,
     mkWorld Queue_new Queue_new (Running api') false Held
       (lg ++ [EvAcquire 10 true; EvCmdPut c; EvWorkerGet c; EvWorkerPut a;
               EvAckLost a; EvAckGetBlocked])).
Proof.
  intros Hbody Hp. destruct c as [name args kwargs].
  unfold _execute, acquire_with_timeout, bind, is_alive, idle_world.
  unfold CmdQueue_put, CmdAckQueue_get, exec_lock_acquire, run_worker. simpl.
  rewrite Hbody. vm_simpl. rewrite Hp. unfold_world.
  repeat rewrite <- app_assoc. reflexivity.
Qed.

(** An acknowledgement that carries an error crosses as its error does. *)
Lemma through_pickle_error (e : PyExc) (tb : string) (res : Value) :
  through_pickle (mkCommandAck (Some e) tb res)
  = match through_pickle_exc e with
    | Arrives e' => Arrives (mkCommandAck (Some e') tb res)
    | Fails err => Fails err
    | Lost => Lost
    end.
Proof. reflexivity. Qed.

(** What [pickle] rebuilds is an instance of the class it was given: the
    error itself when the class keeps the constructor of [BaseException],
    and what the constructor of the class makes of the error's [args]
    otherwise. *)
Lemma through_pickle_exc_class (e e' : PyExc) :
  through_pickle_exc e = Arrives e' ->
  exc_class e' = exc_class e
  /\ (cls_call (exc_class e) = None -> e' = e)
  /\ (forall call, cls_call (exc_class e) = Some call ->
        call (exc_args e) = Instance (exc_args e') (exc_msg e')).
Proof.
  unfold through_pickle_exc. intros H.
  destruct (cls_importable (exc_class e)); [|discriminate]. cbn [negb] in H.
  destruct (cls_call (exc_class e)) as [call|].
  - destruct (call (exc_args e)) as [args msg|] eqn:Hcall; [|discriminate].
    inversion H. split; [reflexivity|]. split; [discriminate|].
    intros call' Hsome. inversion Hsome; subst call'. exact Hcall.
  - inversion H. split; [reflexivity|]. split; [reflexivity|]. discriminate.
Qed.

Lemma execute_worker_exits (c : _Command) (api api' : ApiState) (e : PyExc)
    (lg : list Event) :
  _runner_body c api = (inr e, api') ->
  (_execute (cmd c) (args c) (kwargs c) (idle_world api lg)).1 = Blocked.
Proof.
  intros Hbody. destruct c as [name args kwargs].
  unfold _execute, acquire_with_timeout, bind, is_alive, idle_world.
  unfold CmdQueue_put, CmdAckQueue_get, exec_lock_acquire, run_worker. simpl.
  rewrite Hbody. reflexivity.
Qed.

(** The guard on a body that completes: the lock is released on the way
    out. *)
Lemma acquire_with_timeout_releases {A : Type} (body : bool -> M A) (w w2 : World) (r : A) :
  (lock_acquire 10 (_exec_lock w)).1 = true ->
  body true (emit [EvAcquire 10 true] (set_exec_lock Held w)) = (Returned r, w2) ->
  _exec_lock w2 = Held ->
  acquire_with_timeout 10 body w = (Returned r, emit [EvRelease] (set_exec_lock Unlocked w2)).
Proof.
  intros Hacq Hbody Hheld. unfold acquire_with_timeout, bind, exec_lock_acquire.
  assert (Hl : lock_acquire 10 (_exec_lock w) = (true, Held)).
  { destruct (_exec_lock w) as [| |[t|]]; simpl in *; try discriminate; try reflexivity.
    destruct (t <=? 10); [reflexivity|discriminate]. }
  rewrite Hl, Hbody. unfold exec_lock_release. rewrite Hheld. reflexivity.
Qed.

(** The guard on a body that raises: the exception leaves the guard at the
    [yield], the world is the one the body left, and [lock.release()] is not
    reached. *)
Lemma acquire_with_timeout_skips_release {A : Type} (body : bool -> M A)
    (w w2 : World) (e : PyExc) :
  (lock_acquire 10 (_exec_lock w)).1 = true ->
  body true (emit [EvAcquire 10 true] (set_exec_lock Held w)) = (Raised e, w2) ->
  acquire_with_timeout 10 body w = (Raised e, w2).
Proof.
  intros Hacq Hbody. unfold acquire_with_timeout, bind, exec_lock_acquire.
  assert (Hl : lock_acquire 10 (_exec_lock w) = (true, Held)).
  { destruct (_exec_lock w) as [| |[t|]]; simpl in *; try discriminate; try reflexivity.
    destruct (t <=? 10); [reflexivity|discriminate]. }
  rewrite Hl, Hbody. reflexivity.
Qed.

(** ** Errors of the remote operation *)

(** C2, as the code has it.  On an idle facade, when the operation raises
    the error [e] in the worker and pickle carries it to the caller, where it
    arrives as [e'], [_execute] raises [e'] after one complete round trip.
    [e'] is an instance of the class of [e] (the same kind); it is [e]
    itself, with the same message, when the class keeps the constructor of
    [BaseException], as the built-in errors do, and it has the message that
    the constructor of the class gives for the [args] of [e] otherwise.  The
    trace the worker captured travels in the acknowledgement, is printed,
    and is not what is raised. *)
Theorem remote_error_is_reraised
    (name : string) (args : list Value) (kwargs : list (string * Value))
    (api api' : ApiState) (lg : list Event) (e e' : PyExc) (frames : string) :
  invoke (mkCommand name args kwargs) api = (MRaise e frames, api') ->
  exc_is_Exception e = true ->
  through_pickle_exc e = Arrives e' ->
  let c := mkCommand name args kwargs in
  let tb := format_exc (runner_frame +:+ frames) e in
  let a := mkCommandAck (Some e) tb VNone in
  let a' := mkCommandAck (Some e') tb VNone in
  _execute name args kwargs (idle_world api lg)
  = (Raised e',
     idle_world api'
       (lg ++ [EvAcquire 10 true; EvCmdPut c; EvWorkerGet c; EvWorkerPut a;
               EvAckGet a'; EvRelease; EvPrint tb]))
  /\ exc_type e' = exc_type e
  /\ exc_module e' = exc_module e
  /\ (cls_call (exc_class e) = None -> e' = e)
  /\ (forall call, cls_call (exc_class e) = Some call ->
        call (exc_args e) = Instance (exc_args e') (exc_msg e')).
Proof.
  intros Hinv Hexc Hp c tb a a'.
  destruct (through_pickle_exc_class e e' Hp) as (Hcls & Hsame & Hcall).
  split; [|unfold exc_type, exc_module; rewrite Hcls; auto].
  assert (Hbody : _runner_body c api = (inl a, api')).
  { unfold _runner_body, c. rewrite Hinv, Hexc. reflexivity. }
  assert (Ha : through_pickle a = Arrives a').
  { unfold a. rewrite through_pickle_error, Hp. reflexivity. }
  apply (execute_round_trip c api api' a a' lg Hbody) in Ha. exact Ha.
Qed.

(** ** The lock is busy *)

(** C4. On a live facade whose lock cannot be had within 10 time units,
    [_execute] raises the [TimeoutError]; both queues and the worker are as
    before (nothing enqueued, nothing awaited); the only event is the failed
    acquisition (so no release); and a lock another thread held is still held
    by that thread, not by the caller. *)
Theorem execute_times_out_without_traffic
    (w : World) (name : string) (args : list Value) (kwargs : list (string * Value)) :
  _terminated w = false ->
  (lock_acquire 10 (_exec_lock w)).1 = false ->
  let w' := (_execute name args kwargs w).2 in
  (_execute name args kwargs w).1
    = Raised (TimeoutError "CmdQueue is full and was not cleared in 10 seconds!")
  /\ _CmdQueue w' = _CmdQueue w
  /\ _CmdAckQueue w' = _CmdAckQueue w
  /\ _runner_process w' = _runner_process w
  /\ log w' = log w ++ [EvAcquire 10 false]
  /\ _exec_lock w' = (lock_acquire 10 (_exec_lock w)).2
  /\ (forall r, _exec_lock w = HeldElsewhere r -> exists r', _exec_lock w' = HeldElsewhere r').
Proof.
  intros Hlive Hbusy w'. subst w'.
  unfold _execute, acquire_with_timeout, bind, is_alive, exec_lock_acquire.
  rewrite Hlive. simpl.
  destruct (lock_acquire 10 (_exec_lock w)) as [got l] eqn:Hl. simpl in Hbusy. subst got.
  simpl. repeat split.
  intros r Hr. rewrite Hr in Hl. destruct r as [t|]; simpl in Hl.
  - destruct (t <=? 10); inversion Hl. eauto.
  - inversion Hl. eauto.
Qed.

(** ** The worker loop *)

Lemma runner_body_acknowledges :
  raises_only_errors ->
  forall c api, exists a api', _runner_body c api = (inl a, api').
Proof.
  intros Hapi c api. unfold _runner_body.
  destruct (invoke c api) as [[res|e frames] api'] eqn:Hinv; [eauto|].
  rewrite (Hapi _ _ _ _ _ Hinv). eauto.
Qed.

Lemma runner_loop_drains :
  raises_only_errors ->
  forall cs api w, exists acks api',
    length acks = length cs
    /\ _runner_process (_runner_loop cs api w) = Running api'
    /\ items (_CmdAckQueue (_runner_loop cs api w)) = items (_CmdAckQueue w) ++ acks
    /\ (items (_CmdQueue w) = cs -> items (_CmdQueue (_runner_loop cs api w)) = []).
Proof.
  intros Hapi. induction cs as [|c rest IH]; intros api w.
  - exists [], api. simpl. rewrite app_nil_r. auto.
  - destruct (runner_body_acknowledges Hapi c api) as (a & api1 & Hbody).
    simpl. rewrite Hbody.
    destruct (IH api1 (worker_put a (worker_get c rest w))) as (acks & api' & Hlen & Hp & Hq & Hc).
    exists (a :: acks), api'. simpl. rewrite Hlen, Hp, Hq. simpl.
    rewrite <- app_assoc. repeat split. intros _. apply Hc. reflexivity.
Qed.


(** ** Calls from one thread *)

Lemma executed_app l1 l2 : executed (l1 ++ l2) = executed l1 ++ executed l2.
Proof. apply omap_app. Qed.

Lemma pushed_app l1 l2 : pushed (l1 ++ l2) = pushed l1 ++ pushed l2.
Proof. apply omap_app. Qed.

Lemma received_app l1 l2 : received (l1 ++ l2) = received l1 ++ received l2.
Proof. apply omap_app. Qed.

Lemma executed_round_trip c a a' : executed (round_trip c a a') = [c].
Proof. unfold round_trip. destruct (exception a'); reflexivity. Qed.

Lemma pushed_round_trip c a a' : pushed (round_trip c a a') = [a].
Proof. unfold round_trip. destruct (exception a'); reflexivity. Qed.

Lemma received_round_trip c a a' : received (round_trip c a a') = [a'].
Proof. unfold round_trip. destruct (exception a'); reflexivity. Qed.

Lemma round_trips_cons c cs a acks :
  round_trips (c :: cs) (a :: acks) = round_trip c a (arrived a) ++ round_trips cs acks.
Proof. reflexivity. Qed.

Lemma observed_round_trips cs :
  forall acks, length acks = length cs ->
    executed (round_trips cs acks) = cs
    /\ pushed (round_trips cs acks) = acks
    /\ received (round_trips cs acks) = map arrived acks.
Proof.
  induction cs as [|c rest IH]; intros [|a acks] Hlen; try discriminate; [auto|].
  destruct (IH acks) as (He & Hp & Hr); [simpl in Hlen; congruence|].
  rewrite round_trips_cons, executed_app, pushed_app, received_app.
  rewrite executed_round_trip, pushed_round_trip, received_round_trip, He, Hp, Hr.
  auto.
Qed.

Lemma call_in_order_length cs :
  forall api, length (call_in_order cs api).1 = length cs.
Proof.
  induction cs as [|c rest IH]; intros api; [reflexivity|]. cbn [call_in_order].
  destruct (operation_of c api) as [r api1].
  specialize (IH api1). destruct (call_in_order rest api1) as [rs api2].
  simpl in *. congruence.
Qed.

(** The loop body pushes the acknowledgement of what the operation gives when
    it returns or raises an error, and lets through what it raises
    otherwise. *)
Lemma runner_body_of_operation (c : _Command) (api : ApiState) :
  _runner_body c api
  = match operation_of c api with
    | (MReturn res, api1) => (inl (ack_of (MReturn res)), api1)
    | (MRaise e frames, api1) =>
        if exc_is_Exception e then (inl (ack_of (MRaise e frames)), api1)
        else (inr e, api1)
    end.
Proof.
  unfold _runner_body, invoke, operation_of, Method in *.
  destruct (api_functions !! cmd c) as [f|]; reflexivity.
Qed.

Lemma answered_arrives (r : MethodResult) :
  answered r = true ->
  match r with
  | MReturn _ => True
  | MRaise e _ => exc_is_Exception e = true
  end
  /\ through_pickle (ack_of r) = Arrives (arrived (ack_of r)).
Proof.
  destruct r as [res|e frames]; [intros _; split; [exact I|reflexivity]|].
  cbn [answered]. intros H. apply andb_true_iff in H as [Hexc Hp]. split; [exact Hexc|].
  unfold arrived. cbn [ack_of]. rewrite through_pickle_error.
  destruct (through_pickle_exc e); [reflexivity|discriminate|discriminate].
Qed.

(** The worker that ends on a command: the caller waits forever. *)
Lemma execute_worker_gone (c : _Command) (api api' : ApiState) (e : PyExc)
    (lg : list Event) :
  _runner_body c api = (inr e, api') ->
  _execute (cmd c) (args c) (kwargs c) (idle_world api lg)
  = (Blocked,
     mkWorld Queue_new Queue_new Dead false Held
       (lg ++ [EvAcquire 10 true; EvCmdPut c; EvWorkerGet c; EvWorkerExit e;
               EvAckGetBlocked])).
Proof.
  intros Hbody. destruct c as [name args kwargs].
  unfold _execute, acquire_with_timeout, bind, is_alive, idle_world.
  unfold CmdQueue_put, CmdAckQueue_get, exec_lock_acquire, run_worker. simpl.
  rewrite Hbody. vm_simpl. unfold_world. repeat rewrite <- app_assoc. reflexivity.
Qed.

(** With the lock left held, every further call only adds its failed
    acquisition to the log. *)
Lemma held_lock_log (cs : list _Command) :
  forall w, _terminated w = false -> _exec_lock w = Held ->
    log (submit_all cs w).2 = log w ++ map (fun _ => EvAcquire 10 false) cs.
Proof.
  induction cs as [|c rest IH]; intros w Hlive Hheld;
    [simpl; rewrite app_nil_r; reflexivity|].
  assert (Hexec : _execute (cmd c) (args c) (kwargs c) w
                  = (Raised (TimeoutError "CmdQueue is full and was not cleared in 10 seconds!"),
                     emit [EvAcquire 10 false] w)).
  { destruct w as [cq aq p t l lg]. simpl in Hlive, Hheld. subst t l. reflexivity. }
  cbn [submit_all]. rewrite Hexec.
  specialize (IH (emit [EvAcquire 10 false] w) Hlive Hheld).
  destruct (submit_all rest (emit [EvAcquire 10 false] w)) as [os w''].
  simpl in *. rewrite IH, <- app_assoc. reflexivity.
Qed.

Lemma failed_acquisitions_observed (cs : list _Command) :
  executed (map (fun _ => EvAcquire 10 false) cs) = []
  /\ pushed (map (fun _ => EvAcquire 10 false) cs) = []
  /\ received (map (fun _ => EvAcquire 10 false) cs) = [].
Proof. induction cs as [|c rest IH]; [auto|]. exact IH. Qed.

(** Whatever the operations do, the worker takes the commands in the order
    submitted, pushes the acknowledgements of the operations called in that
    order, and the caller receives the pushed acknowledgements in that
    order, as pickle rebuilds them. *)
Lemma served_in_order (cs : list _Command) :
  forall api lg, exists ev,
    log (submit_all cs (idle_world api lg)).2 = lg ++ ev
    /\ executed ev `prefix_of` cs
    /\ pushed ev `prefix_of` map ack_of (call_in_order cs api).1
    /\ Forall2 (fun a a' => through_pickle a = Arrives a')
         (take (length (received ev)) (pushed ev)) (received ev).
Proof.
  induction cs as [|c rest IH]; intros api lg.
  { exists []. simpl. rewrite app_nil_r. repeat split; try apply prefix_nil. constructor. }
  cbn [call_in_order submit_all].
  pose proof (runner_body_of_operation c api) as Hbody.
  destruct (operation_of c api) as [r api1].
  specialize (IH api1). destruct (call_in_order rest api1) as [rs api2].
  cbn [fst map] in *.
  assert (Hcases :
    _runner_body c api = (inl (ack_of r), api1)
    \/ exists e, _runner_body c api = (inr e, api1)).
  { destruct r as [res|e frames]; [left; exact Hbody|].
    destruct (exc_is_Exception e); [left; exact Hbody|right; eauto]. }
  clear Hbody. destruct Hcases as [Hbody|[e Hbody]].
  - set (a := ack_of r) in *. destruct (through_pickle a) as [a'|err|] eqn:Hp.
    + rewrite (execute_round_trip c api api1 a a' lg Hbody Hp).
      destruct (IH (lg ++ round_trip c a a')) as (ev & Hlog & He & Hpu & Hre).
      assert (Hd : delivered a' <> Blocked)
        by (unfold delivered; destruct (exception a'); discriminate).
      exists (round_trip c a a' ++ ev).
      rewrite executed_app, pushed_app, received_app.
      rewrite executed_round_trip, pushed_round_trip, received_round_trip.
      split; [|split; [apply (prefix_cons c); exact He|split;
               [apply (prefix_cons a); exact Hpu|constructor; assumption]]].
      destruct (delivered a') as [v|e|]; [| |congruence];
        destruct (submit_all rest (idle_world api1 (lg ++ round_trip c a a'))) as [os w''];
        cbn [snd] in *; rewrite Hlog, <- app_assoc; reflexivity.
    + rewrite (execute_unpickle_raises c api api1 a err lg Hbody Hp).
      pose proof (held_lock_log rest
        (mkWorld Queue_new Queue_new (Running api1) false Held
           (lg ++ [EvAcquire 10 true; EvCmdPut c; EvWorkerGet c; EvWorkerPut a;
                   EvAckGetRaised err])) eq_refl eq_refl) as Hlog.
      destruct (failed_acquisitions_observed rest) as (He & Hpu & Hre).
      destruct (submit_all rest _) as [os w'']. cbn [snd log] in *.
      exists ([EvAcquire 10 true; EvCmdPut c; EvWorkerGet c; EvWorkerPut a;
               EvAckGetRaised err] ++ map (fun _ => EvAcquire 10 false) rest).
      rewrite executed_app, pushed_app, received_app, He, Hpu, Hre.
      split; [rewrite Hlog, app_assoc; reflexivity|].
      split; [apply (prefix_cons c), prefix_nil|].
      split; [apply (prefix_cons a), prefix_nil|constructor].
    + rewrite (execute_ack_lost c api api1 a lg Hbody Hp). cbn [snd log].
      exists [EvAcquire 10 true; EvCmdPut c; EvWorkerGet c; EvWorkerPut a;
              EvAckLost a; EvAckGetBlocked].
      split; [reflexivity|].
      split; [apply (prefix_cons c), prefix_nil|].
      split; [apply (prefix_cons a), prefix_nil|constructor].
  - rewrite (execute_worker_gone c api api1 e lg Hbody). cbn [snd log].
    exists [EvAcquire 10 true; EvCmdPut c; EvWorkerGet c; EvWorkerExit e; EvAckGetBlocked].
    split; [reflexivity|].
    split; [apply (prefix_cons c), prefix_nil|].
    split; [apply prefix_nil|constructor].
Qed.


(** ** Names the worker does not know *)

(** C5, as the code has it.  A name the Target API class does not define is
    refused by attribute access with [AttributeError], the world untouched
    (no channel traffic), and so is the forwarded call.  Of the names that
    pass, the worker resolves those that are bound methods of the instance;
    for any other name (an attribute of the class that is not a method) its
    lookup raises [KeyError], which it acknowledges like any other failure of
    an operation, and which the forwarded call raises to its caller after one
    complete round trip, the trace printed and the facade idle again. *)
Theorem unknown_names_fail_at_the_facade :
  (forall name w, name ∉ API_class_attrs ->
     (__getattr__ name w).1
       = Raised (AttributeError ("'MultiAPI' object has no attribute '" +:+ name +:+ "'"))
     /\ (__getattr__ name w).2 = w)
  /\ (forall name args kwargs w, name ∉ API_class_attrs ->
        forward name args kwargs w
        = (Raised (AttributeError ("'MultiAPI' object has no attribute '" +:+ name +:+ "'")),
           w))
  /\ (forall name args kwargs api f, api_functions !! name = Some f ->
        invoke (mkCommand name args kwargs) api = f args kwargs api)
  /\ (forall name args kwargs api, api_functions !! name = None ->
        _runner_body (mkCommand name args kwargs) api
        = (inl (mkCommandAck (Some (KeyError name))
                  (format_exc (runner_frame +:+ "") (KeyError name)) VNone),
           api))
  /\ (forall name args kwargs api lg,
        name ∈ API_class_attrs -> api_functions !! name = None ->
        let c := mkCommand name args kwargs in
        let tb := format_exc (runner_frame +:+ "") (KeyError name) in
        let a := mkCommandAck (Some (KeyError name)) tb VNone in
        forward name args kwargs (idle_world api lg)
        = (Raised (KeyError name),
           idle_world api
             (lg ++ [EvAcquire 10 true; EvCmdPut c; EvWorkerGet c; EvWorkerPut a;
                     EvAckGet a; EvRelease; EvPrint tb]))).
Proof.
  assert (Hbody : forall name args kwargs api, api_functions !! name = None ->
            _runner_body (mkCommand name args kwargs) api
            = (inl (mkCommandAck (Some (KeyError name))
                      (format_exc (runner_frame +:+ "") (KeyError name)) VNone),
               api)).
  { intros name args kwargs api Hf. unfold _runner_body, invoke, Method in *. cbn [cmd].
    rewrite Hf. reflexivity. }
  split; [|split; [|split; [|split]]].
  - intros name w Hout. unfold __getattr__.
    rewrite bool_decide_eq_false_2 by assumption. split; reflexivity.
  - intros name args kwargs w Hout. unfold forward, bind, __getattr__.
    rewrite bool_decide_eq_false_2 by assumption. reflexivity.
  - intros name args kwargs api f Hf. unfold invoke. cbn [cmd]. rewrite Hf. reflexivity.
  - exact Hbody.
  - intros name args kwargs api lg Hin Hf c tb a.
    pose proof (execute_round_trip c api api a a lg (Hbody name args kwargs api Hf) eq_refl)
      as Hex.
    unfold forward, bind at 1, __getattr__.
    rewrite bool_decide_eq_true_2 by exact Hin. unfold ret at 1. exact Hex.
Qed.

(** ** Further behaviour of the facade and the worker *)

(** One call on an idle facade whose operation raises an error that pickle
    carries over: the error comes back to the caller as it arrives, and the
    facade is idle again. *)
Lemma execute_error_round_trip
    (name : string) (args : list Value) (kwargs : list (string * Value))
    (api api' : ApiState) (lg : list Event) (e e' : PyExc) (frames : string) :
  invoke (mkCommand name args kwargs) api = (MRaise e frames, api') ->
  exc_is_Exception e = true ->
  through_pickle_exc e = Arrives e' ->
  exists lg',
    _execute name args kwargs (idle_world api lg) = (Raised e', idle_world api' lg').
Proof.
  intros Hinv Hexc Hp.
  assert (Hbody : _runner_body (mkCommand name args kwargs) api
                  = (inl (mkCommandAck (Some e) (format_exc (runner_frame +:+ frames) e)
                            VNone), api')).
  { unfold _runner_body. rewrite Hinv, Hexc. reflexivity. }
  set (tb := format_exc (runner_frame +:+ frames) e) in *.
  assert (Ha : through_pickle (mkCommandAck (Some e) tb VNone)
               = Arrives (mkCommandAck (Some e') tb VNone))
    by (rewrite through_pickle_error, Hp; reflexivity).
  eexists. exact (execute_round_trip _ api api' _ _ lg Hbody Ha).
Qed.

(** The same call when the error does not cross: the caller gets the error
    of unpickling it, or waits forever, and in both cases the lock is held
    and the worker goes on. *)
Lemma execute_error_stuck
    (name : string) (args : list Value) (kwargs : list (string * Value))
    (api api' : ApiState) (lg : list Event) (e : PyExc) (frames : string) :
  invoke (mkCommand name args kwargs) api = (MRaise e frames, api') ->
  exc_is_Exception e = true ->
  (forall err, through_pickle_exc e = Fails err ->
     exists lg', _execute name args kwargs (idle_world api lg)
                 = (Raised err, mkWorld Queue_new Queue_new (Running api') false Held lg'))
  /\ (through_pickle_exc e = Lost ->
      exists lg', _execute name args kwargs (idle_world api lg)
                  = (Blocked, mkWorld Queue_new Queue_new (Running api') false Held lg')).
Proof.
  intros Hinv Hexc.
  assert (Hbody : _runner_body (mkCommand name args kwargs) api
                  = (inl (mkCommandAck (Some e) (format_exc (runner_frame +:+ frames) e)
                            VNone), api')).
  { unfold _runner_body. rewrite Hinv, Hexc. reflexivity. }
  set (tb := format_exc (runner_frame +:+ frames) e) in *.
  split.
  - intros err Hp.
    assert (Ha : through_pickle (mkCommandAck (Some e) tb VNone) = Fails err)
      by (rewrite through_pickle_error, Hp; reflexivity).
    eexists. exact (execute_unpickle_raises _ api api' _ err lg Hbody Ha).
  - intros Hp.
    assert (Ha : through_pickle (mkCommandAck (Some e) tb VNone) = Lost)
      by (rewrite through_pickle_error, Hp; reflexivity).
    eexists. exact (execute_ack_lost _ api api' _ lg Hbody Ha).
Qed.

(** On an idle facade, an operation that returns [res] makes [_execute]
    return [res] (also when it is [None]) after one complete round trip; the
    lock is free again and nothing is left in either queue. *)
Theorem remote_result_is_returned
    (name : string) (args : list Value) (kwargs : list (string * Value))
    (api api' : ApiState) (lg : list Event) (res : Value) :
  invoke (mkCommand name args kwargs) api = (MReturn res, api') ->
  let c := mkCommand name args kwargs in
  let a := mkCommandAck None "" res in
  _execute name args kwargs (idle_world api lg)
  = (Returned res,
     idle_world api'
       (lg ++ [EvAcquire 10 true; EvCmdPut c; EvWorkerGet c; EvWorkerPut a;
               EvAckGet a; EvRelease])).
Proof.
  intros Hinv c a.
  assert (Hbody : _runner_body c api = (inl a, api')).
  { unfold _runner_body, c. rewrite Hinv. reflexivity. }
  pose proof (execute_round_trip c api api' a a lg Hbody eq_refl) as H.
  unfold round_trip, delivered in H. cbn [exception a result] in H.
  rewrite app_nil_r in H. exact H.
Qed.

(** The guard around a body that completes: whatever the timeout, once the
    lock was acquired and the body returned [r] without touching the lock,
    the guard releases the lock and returns [r]. *)
Theorem guard_releases_after_normal_body {A : Type}
    (timeout : nat) (body : bool -> M A) (w w2 : World) (r : A) :
  (lock_acquire timeout (_exec_lock w)).1 = true ->
  body true (emit [EvAcquire timeout true] (set_exec_lock Held w)) = (Returned r, w2) ->
  _exec_lock w2 = Held ->
  acquire_with_timeout timeout body w
  = (Returned r, emit [EvRelease] (set_exec_lock Unlocked w2)).
Proof.
  intros Hacq Hbody Hheld. unfold acquire_with_timeout, bind, exec_lock_acquire.
  assert (Hl : lock_acquire timeout (_exec_lock w) = (true, Held)).
  { destruct (_exec_lock w) as [| |[t|]]; simpl in *; try discriminate; try reflexivity.
    destruct (t <=? timeout); [reflexivity|discriminate]. }
  rewrite Hl, Hbody. unfold exec_lock_release. rewrite Hheld. reflexivity.
Qed.

(** The guard when the lock was not obtained: it hands [False] to the body
    and adds nothing of its own afterwards, whatever the body does (return,
    raise, or never return); in particular it never releases the lock it did
    not get. *)
Theorem guard_without_lock_only_runs_body {A : Type}
    (timeout : nat) (body : bool -> M A) (w : World) :
  (lock_acquire timeout (_exec_lock w)).1 = false ->
  acquire_with_timeout timeout body w
  = body false (emit [EvAcquire timeout false]
                  (set_exec_lock (lock_acquire timeout (_exec_lock w)).2 w)).
Proof.
  intros Hacq. unfold acquire_with_timeout, bind, exec_lock_acquire.
  destruct (lock_acquire timeout (_exec_lock w)) as [got l]. simpl in Hacq. subst got.
  cbn [snd].
  destruct (body false (emit [EvAcquire timeout false] (set_exec_lock l w))) as [[r|e|] w2];
    reflexivity.
Qed.

Lemma dead_worker_blocks
    (w : World) (name : string) (args : list Value) (kwargs : list (string * Value)) :
  _terminated w = false ->
  (lock_acquire 10 (_exec_lock w)).1 = true ->
  closed (_CmdQueue w) = false ->
  _CmdAckQueue w = Queue_new ->
  _runner_process w = Dead ->
  (_execute name args kwargs w).1 = Blocked.
Proof.
  intros Hlive Hacq Hopen Hack Hdead.
  assert (Hl : lock_acquire 10 (_exec_lock w) = (true, Held)).
  { destruct (_exec_lock w) as [| |[t|]]; simpl in *; try discriminate; try reflexivity.
    destruct (t <=? 10); [reflexivity|discriminate]. }
  destruct w as [[its cl] aq p t l lg]. simpl in *. subst t aq p cl.
  unfold _execute, acquire_with_timeout, bind, is_alive, exec_lock_acquire,
    CmdQueue_put, CmdAckQueue_get, run_worker.
  cbn [_terminated _exec_lock negb]. rewrite Hl.
  vm_compute_world. reflexivity.
Qed.

(** A worker that is gone is not noticed: on a live facade whose lock can be
    had and whose queues are open, with no acknowledgement waiting,
    [_execute] enqueues the command and then never returns, the lock held
    and the command still in the queue. *)
Theorem execute_blocks_when_worker_is_dead
    (w : World) (name : string) (args : list Value) (kwargs : list (string * Value)) :
  _terminated w = false ->
  (lock_acquire 10 (_exec_lock w)).1 = true ->
  closed (_CmdQueue w) = false ->
  _CmdAckQueue w = Queue_new ->
  _runner_process w = Dead ->
  let w' := (_execute name args kwargs w).2 in
  (_execute name args kwargs w).1 = Blocked
  /\ items (_CmdQueue w') = items (_CmdQueue w) ++ [mkCommand name args kwargs]
  /\ _exec_lock w' = Held
  /\ log w' = log w ++ [EvAcquire 10 true; EvCmdPut (mkCommand name args kwargs);
                        EvAckGetBlocked].
Proof.
  intros Hlive Hacq Hopen Hack Hdead.
  assert (Hl : lock_acquire 10 (_exec_lock w) = (true, Held)).
  { destruct (_exec_lock w) as [| |[t|]]; simpl in *; try discriminate; try reflexivity.
    destruct (t <=? 10); [reflexivity|discriminate]. }
  destruct w as [[its cl] aq p t l lg]. simpl in *. subst t aq p cl.
  unfold _execute, acquire_with_timeout, bind, is_alive, exec_lock_acquire,
    CmdQueue_put, CmdAckQueue_get, run_worker.
  cbn [_terminated _exec_lock negb]. rewrite Hl.
  vm_compute_world. repeat split. rewrite <- !app_assoc. reflexivity.
Qed.

(** When the API constructor raises in the worker, [__init__] still returns a
    live facade, and the first call on it never returns. *)
Theorem failed_api_setup_blocks_first_call
    (df path : Value) (lg : bool) (ls lf : Value)
    (name : string) (args : list Value) (kwargs : list (string * Value)) :
  API_new (mkCtorArgs df path lg ls lf) = None ->
  let w := __init__ (mkCtorArgs df path lg ls lf) in
  is_alive w = (Returned true, w)
  /\ (_execute name args kwargs w).1 = Blocked.
Proof.
  intros Hnew w. split; [reflexivity|].
  apply dead_worker_blocks; try reflexivity.
  unfold w, __init__, _api_setup. cbn [DEBUG_OUTPUT device_family jlink_arm_dll_path
    log_flag log_str log_file_path _runner_process]. rewrite Hnew. reflexivity.
Qed.

(** An operation that raises something [except Exception] does not catch
    (a [SystemExit], a [KeyboardInterrupt]) ends the worker: no
    acknowledgement is pushed, the API instance is gone with the process, and
    the caller of [_execute] never returns, the lock held. *)
Theorem uncaught_raise_ends_worker_and_blocks_caller
    (name : string) (args : list Value) (kwargs : list (string * Value))
    (api api' : ApiState) (lg : list Event) (e : PyExc) (frames : string) :
  invoke (mkCommand name args kwargs) api = (MRaise e frames, api') ->
  exc_is_Exception e = false ->
  let c := mkCommand name args kwargs in
  _execute name args kwargs (idle_world api lg)
  = (Blocked,
     mkWorld Queue_new Queue_new Dead false Held
       (lg ++ [EvAcquire 10 true; EvCmdPut c; EvWorkerGet c; EvWorkerExit e;
               EvAckGetBlocked])).
Proof.
  intros Hinv Hexc c.
  assert (Hbody : _runner_body c api = (inr e, api')).
  { unfold _runner_body, c. rewrite Hinv, Hexc. reflexivity. }
  unfold _execute, acquire_with_timeout, bind, is_alive, idle_world.
  unfold CmdQueue_put, CmdAckQueue_get, exec_lock_acquire, run_worker. simpl.
  fold c. rewrite Hbody. vm_simpl. unfold_world.
  repeat rewrite <- app_assoc. reflexivity.
Qed.

(** Once the lock is left held (the guard's body raised), the facade is of no
    more use: every later call fails with the [TimeoutError], nothing is ever
    enqueued, and the lock stays held. *)
Theorem held_lock_fails_every_later_call (cs : list _Command) :
  forall w,
    _terminated w = false ->
    _exec_lock w = Held ->
    let timeout := TimeoutError "CmdQueue is full and was not cleared in 10 seconds!" in
    (submit_all cs w).1 = map (fun _ => Raised timeout) cs
    /\ _CmdQueue (submit_all cs w).2 = _CmdQueue w
    /\ _CmdAckQueue (submit_all cs w).2 = _CmdAckQueue w
    /\ _exec_lock (submit_all cs w).2 = Held
    /\ _terminated (submit_all cs w).2 = false.
Proof.
  induction cs as [|c rest IH]; intros w Hlive Hheld timeout; [simpl; auto|].
  assert (Hexec : _execute (cmd c) (args c) (kwargs c) w
                  = (Raised timeout, emit [EvAcquire 10 false] w)).
  { destruct w as [cq aq p t l lg]. simpl in Hlive, Hheld. subst t l. reflexivity. }
  cbn [submit_all]. rewrite Hexec.
  destruct (IH (emit [EvAcquire 10 false] w) Hlive Hheld) as (H1 & H2 & H3 & H4 & H5).
  destruct (submit_all rest (emit [EvAcquire 10 false] w)) as [os w''].
  simpl in *. subst os. auto.
Qed.

(** [__exit__] when the forwarded [close()] returns: one round trip for
    [close], then the shutdown of [terminate()] in its order, the flag set at
    the end. *)
Theorem exit_closes_then_terminates
    (api api' : ApiState) (lg : list Event) (res : Value) :
  "close" ∈ API_class_attrs ->
  invoke (mkCommand "close" [] []) api = (MReturn res, api') ->
  let c := mkCommand "close" [] [] in
  let a := mkCommandAck None "" res in
  __exit__ (idle_world api lg)
  = (Returned tt,
     mkWorld (mkQueue [] true) (mkQueue [] true) Dead true Unlocked
       (lg ++ [EvAcquire 10 true; EvCmdPut c; EvWorkerGet c; EvWorkerPut a;
               EvAckGet a; EvRelease;
               EvProcessTerminate; EvCmdQueueClose; EvAckQueueClose; EvProcessJoin;
               EvAckQueueJoinThread; EvCmdQueueJoinThread])).
Proof.
  intros Hin Hinv c a.
  assert (Hbody : _runner_body c api = (inl a, api')).
  { unfold _runner_body, c. rewrite Hinv. reflexivity. }
  pose proof (execute_round_trip c api api' a a lg Hbody eq_refl) as Hex.
  unfold round_trip, delivered in Hex. cbn [exception a result cmd args kwargs c] in Hex.
  rewrite app_nil_r in Hex.
  unfold __exit__, forward, bind at 1 2, __getattr__.
  rewrite bool_decide_eq_true_2 by exact Hin. unfold ret at 1. rewrite Hex.
  unfold idle_world. vm_compute_world. rewrite <- !app_assoc. reflexivity.
Qed.

(** [__exit__] when the forwarded [close()] raises: the error leaves
    [__exit__] before [self.terminate()] is reached, so the facade stays
    alive and the worker process keeps running.  What leaves [__exit__] is
    the error as pickle carried it to the caller; when pickle cannot rebuild
    it, the error of unpickling it leaves instead, and when pickle cannot
    send it, [__exit__] never returns: [self.terminate()] is not reached
    then either. *)
Theorem exit_skips_terminate_when_close_raises
    (api api' : ApiState) (lg : list Event) (e : PyExc) (frames : string) :
  "close" ∈ API_class_attrs ->
  invoke (mkCommand "close" [] []) api = (MRaise e frames, api') ->
  exc_is_Exception e = true ->
  let w' := (__exit__ (idle_world api lg)).2 in
  (__exit__ (idle_world api lg)).1
    = match through_pickle_exc e with
      | Arrives e' => Raised e'
      | Fails err => Raised err
      | Lost => Blocked
      end
  /\ _terminated w' = false
  /\ _runner_process w' = Running api'
  /\ closed (_CmdQueue w') = false
  /\ closed (_CmdAckQueue w') = false.
Proof.
  intros Hin Hinv Hexc.
  assert (Hexit : exists l lg',
    __exit__ (idle_world api lg)
    = (match through_pickle_exc e with
       | Arrives e' => Raised e'
       | Fails err => Raised err
       | Lost => Blocked
       end,
       mkWorld Queue_new Queue_new (Running api') false l lg')).
  { destruct (execute_error_stuck "close" [] [] api api' lg e frames Hinv Hexc)
      as [Hfails Hlost].
    unfold __exit__, forward, bind at 1 2, __getattr__.
    rewrite bool_decide_eq_true_2 by exact Hin. unfold ret at 1.
    destruct (through_pickle_exc e) as [e'|err|] eqn:Hp.
    - destruct (execute_error_round_trip "close" [] [] api api' lg e e' frames Hinv Hexc Hp)
        as [lg1 Hex].
      rewrite Hex. eexists _, _. reflexivity.
    - destruct (Hfails err eq_refl) as [lg1 Hex]. rewrite Hex. eexists _, _. reflexivity.
    - destruct (Hlost eq_refl) as [lg1 Hex]. rewrite Hex. eexists _, _. reflexivity. }
  destruct Hexit as (l & lg' & Hexit). cbv zeta. rewrite Hexit. repeat split.
Qed.

(** [__exit__] on a facade that was already terminated (say by a
    [terminate()] inside the [with] block) raises: the forwarded [close()]
    fails as unavailable, or with [AttributeError] when the Target API class
    has no [close]; the world is untouched. *)
Theorem exit_after_terminate_raises (w : World) :
  let w' := (terminate w).2 in
  __exit__ w'
  = (if bool_decide ("close" ∈ API_class_attrs)
     then Raised (APIError "Runner process terminated, API is unavailable.")
     else Raised (AttributeError ("'MultiAPI' object has no attribute '" +:+ "close" +:+ "'")),
     w').
Proof.
  intros w'. pose proof (terminate_sets_flag w) as H. fold w' in H.
  unfold __exit__, forward, bind, __getattr__.
  destruct (bool_decide ("close" ∈ API_class_attrs)); [|reflexivity].
  unfold ret, _execute, bind, is_alive. rewrite H. reflexivity.
Qed.

End Proxy.

Arguments Running {ApiState} _.
Arguments Dead {ApiState}.
Arguments mkWorld {ApiState} _ _ _ _ _ _.
Arguments _CmdQueue {ApiState} _.
Arguments _CmdAckQueue {ApiState} _.
Arguments _runner_process {ApiState} _.
Arguments _terminated {ApiState} _.
Arguments _exec_lock {ApiState} _.
Arguments log {ApiState} _.
Arguments set_exec_lock {ApiState} _ _.
Arguments emit {ApiState} _ _.
Arguments ret {ApiState A} _ _.
Arguments raise {ApiState A} _ _.
Arguments bind {ApiState A B} _ _ _.
Arguments invoke {ApiState} _ _ _.
Arguments _runner_body {ApiState} _ _ _ _.
Arguments _runner_loop {ApiState} _ _ _ _ _.
Arguments run_worker {ApiState} _ _ _.
Arguments acquire_with_timeout {ApiState A} _ _ _.
Arguments __init__ {ApiState} _ _.
Arguments is_alive {ApiState} _.
Arguments terminate_shutdown {ApiState} _.
Arguments terminate {ApiState} _.
Arguments _execute {ApiState} _ _ _ _ _ _ _ _.
Arguments __getattr__ {ApiState} _ _ _ _ _ _ _.
Arguments forward {ApiState} _ _ _ _ _ _ _ _ _.
Arguments __enter__ {ApiState} _ _ _ _ _ _.
Arguments __exit__ {ApiState} _ _ _ _ _ _.
Arguments idle_world {ApiState} _ _.
Arguments run_op {ApiState} _ _ _ _ _ _ _.
Arguments alive_trace {ApiState} _ _ _ _ _ _ _.
Arguments submit_all {ApiState} _ _ _ _ _ _.
Arguments raises_only_errors {ApiState} _.
Arguments call_in_order {ApiState} _ _ _.

(** ** The small Target API at work *)

Lemma Demo_raises_only_errors : raises_only_errors Demo.api_functions.
Proof.
  intros c api e frames api' H. unfold invoke in H.
  destruct (Demo.api_functions !! cmd c) as [f|] eqn:E.
  - unfold Demo.api_functions in E.
    apply lookup_insert_Some in E as [[_ <-]|[_ E]]; [discriminate|].
    apply lookup_insert_Some in E as [[_ <-]|[_ E]].
    { unfold Demo.divide in H. repeat case_match; simplify_eq; reflexivity. }
    apply lookup_insert_Some in E as [[_ <-]|[_ E]]; [discriminate|].
    apply lookup_singleton_Some in E as [_ <-]. discriminate.
  - inversion H. reflexivity.
Qed.

(** The scenario of the specification, run: 42 comes back, the division by
    zero comes back as the error it was, and a later call is served. *)
Example demo_scenario :
  (submit_all Demo.api_functions Demo.runner_frame Demo.CmdQueue_repr Demo.CmdAckQueue_repr
     [mkCommand "answer" [] []; mkCommand "divide" [VInt 10; VInt 0] [];
      mkCommand "divide" [VInt 10; VInt 2] []]
     (__init__ Demo.API_new Demo.ctor_args)).1
  = [Returned (VInt 42); Raised Demo.ZeroDivisionError; Returned (VInt 5)].
Proof. vm_compute. reflexivity. Qed.

(** The last line of a trace names the class, with its module for a class
    that is not built in, and has no colon before an empty message. *)
Example format_exc_last_line :
  format_exc "" (KeyError "reboot")
  = "Traceback (most recent call last):" +:+ newline +:+ "KeyError: 'reboot'" +:+ newline
  /\ format_exc "" (ValueError "")
     = "Traceback (most recent call last):" +:+ newline +:+ "ValueError" +:+ newline
  /\ format_exc "" Demo.StrictError
     = "Traceback (most recent call last):" +:+ newline
       +:+ "pynrfjprog.API.StrictError: strict check failed" +:+ newline.
Proof. vm_compute. repeat split. Qed.

(** An error whose class relabels its argument reaches the caller as an
    error of the same class with another message; the trace that is printed
    has the message the error had in the worker. *)
Example demo_error_arrives_with_another_message :
  let c := mkCommand "erase" [] [] in
  let tb := format_exc (Demo.runner_frame +:+ Demo.frame "erase") Demo.CodedError in
  let e' := mkExc Demo.CodedError_class [VStr "cannot cannot erase"] "cannot cannot erase" in
  _execute Demo.coded_functions Demo.runner_frame
    Demo.CmdQueue_repr Demo.CmdAckQueue_repr "erase" [] []
    (__init__ Demo.API_new Demo.ctor_args)
  = (Raised e',
     mkWorld (mkQueue [] false) (mkQueue [] false) (Running 1) false Unlocked
       [EvAcquire 10 true; EvCmdPut c; EvWorkerGet c;
        EvWorkerPut (mkCommandAck (Some Demo.CodedError) tb VNone);
        EvAckGet (mkCommandAck (Some e') tb VNone); EvRelease; EvPrint tb]).
Proof. vm_compute. reflexivity. Qed.

(** An error that pickle cannot rebuild in the calling process: the worker
    acknowledges it, [get] raises the [TypeError] of the failed call of the
    class inside the guard, the lock stays held, and the next call times
    out. *)
Example demo_unpickling_raises_in_get :
  let c := mkCommand "check" [] [] in
  let a := mkCommandAck (Some Demo.StrictError)
             (format_exc (Demo.runner_frame +:+ Demo.frame "check") Demo.StrictError) VNone in
  let err := Demo.TypeError
               "StrictError.__init__() missing 1 required positional argument: 'detail'" in
  let run := _execute Demo.strict_functions Demo.runner_frame
               Demo.CmdQueue_repr Demo.CmdAckQueue_repr "check" [] []
               (__init__ Demo.API_new Demo.ctor_args) in
  run = (Raised err,
         mkWorld (mkQueue [] false) (mkQueue [] false) (Running 1) false Held
           [EvAcquire 10 true; EvCmdPut c; EvWorkerGet c; EvWorkerPut a; EvAckGetRaised err])
  /\ (_execute Demo.strict_functions Demo.runner_frame
        Demo.CmdQueue_repr Demo.CmdAckQueue_repr "answer" [] [] run.2).1
     = Raised (TimeoutError "CmdQueue is full and was not cleared in 10 seconds!").
Proof. vm_compute. split; reflexivity. Qed.

(** An error that cannot be pickled never leaves the worker: the caller
    waits forever. *)
Example demo_unpicklable_error_blocks :
  let c := mkCommand "probe" [] [] in
  let a := mkCommandAck (Some Demo.ProbeGone)
             (format_exc (Demo.runner_frame +:+ Demo.frame "probe") Demo.ProbeGone) VNone in
  _execute Demo.probing_functions Demo.runner_frame
    Demo.CmdQueue_repr Demo.CmdAckQueue_repr "probe" [] []
    (__init__ Demo.API_new Demo.ctor_args)
  = (Blocked,
     mkWorld (mkQueue [] false) (mkQueue [] false) (Running 1) false Held
       [EvAcquire 10 true; EvCmdPut c; EvWorkerGet c; EvWorkerPut a; EvAckLost a;
        EvAckGetBlocked]).
Proof. vm_compute. reflexivity. Qed.

(** An operation that raises [SystemExit] is not caught by
    [except Exception]: the worker is gone, no acknowledgement is pushed, and
    the caller waits forever. *)
Example demo_system_exit_ends_the_worker :
  _execute Demo.halting_functions Demo.runner_frame
      Demo.CmdQueue_repr Demo.CmdAckQueue_repr "halt" [] []
    (__init__ Demo.API_new Demo.ctor_args)
  = (Blocked,
     mkWorld (mkQueue [] false) (mkQueue [] false) Dead false Held
       [EvAcquire 10 true; EvCmdPut (mkCommand "halt" [] []);
        EvWorkerGet (mkCommand "halt" [] []); EvWorkerExit (SystemExit "");
        EvAckGetBlocked]).
Proof. vm_compute. reflexivity. Qed.

(** ** The guard when its body raises *)

(** C1, on the code.  On a fresh facade the guard acquires the lock; a body
    that raises leaves the guard with the lock still held and no release in
    the log, and the next call through the facade times out.  The same
    inside [_execute]: a caller that passes the liveness check while another
    thread is at line 108 of [terminate()] (queues closed, flag not yet set)
    gets the [ValueError] of the closed queue from [put], and the lock stays
    held. *)
Theorem guard_keeps_lock_when_body_raises :
  let w0 := __init__ Demo.API_new Demo.ctor_args in
  let w1 := (acquire_with_timeout 10 (fun _ => raise (A:=unit) (ValueError "boom")) w0).2 in
  let w2 := (terminate_shutdown w0).2 in
  let w3 := (_execute Demo.api_functions Demo.runner_frame
      Demo.CmdQueue_repr Demo.CmdAckQueue_repr "answer" [] [] w2).2 in
  (lock_acquire 10 (_exec_lock w0)).1 = true
  /\ (acquire_with_timeout 10 (fun _ => raise (A:=unit) (ValueError "boom")) w0).1
     = Raised (ValueError "boom")
  /\ _exec_lock w1 = Held
  /\ log w1 = [EvAcquire 10 true]
  /\ (_execute Demo.api_functions Demo.runner_frame
      Demo.CmdQueue_repr Demo.CmdAckQueue_repr "answer" [] [] w1).1
     = Raised (TimeoutError "CmdQueue is full and was not cleared in 10 seconds!")
  /\ _terminated w2 = false
  /\ (_execute Demo.api_functions Demo.runner_frame
      Demo.CmdQueue_repr Demo.CmdAckQueue_repr "answer" [] [] w2).1
     = Raised (ValueError ("Queue " +:+ Demo.CmdQueue_repr +:+ " is closed"))
  /\ _exec_lock w3 = Held
  /\ log w3 = log w2 ++ [EvAcquire 10 true; EvCmdPutClosed (mkCommand "answer" [] [])].
Proof. vm_compute. repeat split. Qed.

(** ** The theorems at concrete inputs *)

(** [divide(10, 0)] on the small Target API: [ZeroDivisionError] is a
    built-in error, which pickle rebuilds as it was. *)
Lemma remote_error_is_reraised_witness :
  let e := Demo.ZeroDivisionError in
  invoke Demo.api_functions (mkCommand "divide" [VInt 10; VInt 0] []) 0
    = (MRaise e (Demo.frame "divide"), 1)
  /\ exc_is_Exception e = true
  /\ through_pickle_exc e = Arrives e
  /\ let c := mkCommand "divide" [VInt 10; VInt 0] [] in
     let tb := format_exc (Demo.runner_frame +:+ Demo.frame "divide") e in
     let a := mkCommandAck (Some e) tb VNone in
     _execute Demo.api_functions Demo.runner_frame
         Demo.CmdQueue_repr Demo.CmdAckQueue_repr "divide" [VInt 10; VInt 0] []
       (idle_world 0 [])
     = (Raised e,
        idle_world 1
          ([] ++ [EvAcquire 10 true; EvCmdPut c; EvWorkerGet c; EvWorkerPut a;
                  EvAckGet a; EvRelease; EvPrint tb]))
     /\ exc_type e = exc_type e
     /\ exc_module e = exc_module e
     /\ (cls_call (exc_class e) = None -> e = e)
     /\ (forall call, cls_call (exc_class e) = Some call ->
           call (exc_args e) = Instance (exc_args e) (exc_msg e)).
Proof.
  intros e. split; [vm_compute; reflexivity|]. split; [reflexivity|].
  split; [reflexivity|].
  apply (remote_error_is_reraised nat Demo.api_functions Demo.runner_frame
      Demo.CmdQueue_repr Demo.CmdAckQueue_repr
           "divide" [VInt 10; VInt 0] [] 0 1 [] e e (Demo.frame "divide")).
  - vm_compute. reflexivity.
  - reflexivity.
  - reflexivity.
Defined.

(** C2, the claim as stated, at the small Target API: [check()] raises a
    [StrictError] with the message [strict check failed] in the worker, an
    error that [except Exception] catches and the worker acknowledges; the
    caller of [_execute] gets the [TypeError] of rebuilding it, not an error
    of that kind and message. *)
Lemma strict_error_is_not_what_the_caller_gets :
  let e := Demo.StrictError in
  let out := _execute Demo.strict_functions Demo.runner_frame
      Demo.CmdQueue_repr Demo.CmdAckQueue_repr "check" [] []
               (__init__ Demo.API_new Demo.ctor_args) in
  invoke Demo.strict_functions (mkCommand "check" [] []) 0
    = (MRaise e (Demo.frame "check"), 1)
  /\ exc_is_Exception e = true
  /\ exc_type e = "StrictError"
  /\ exc_msg e = "strict check failed"
  /\ pushed (log out.2)
     = [mkCommandAck (Some e)
          (format_exc (Demo.runner_frame +:+ Demo.frame "check") e) VNone]
  /\ out.1 = Raised (Demo.TypeError
                       "StrictError.__init__() missing 1 required positional argument: 'detail'")
  /\ ~ (exists e', out.1 = Raised e' /\ exc_type e' = exc_type e /\ exc_msg e' = exc_msg e).
Proof.
  intros e out.
  assert (Hout : out.1 = Raised (Demo.TypeError
            "StrictError.__init__() missing 1 required positional argument: 'detail'"))
    by (vm_compute; reflexivity).
  split; [vm_compute; reflexivity|]. split; [reflexivity|]. split; [reflexivity|].
  split; [reflexivity|]. split; [vm_compute; reflexivity|]. split; [exact Hout|].
  intros (e' & He' & Ht & _). rewrite Hout in He'. inversion He'; subst e'.
  vm_compute in Ht. discriminate Ht.
Qed.

(** A fresh facade whose lock another thread holds for good. *)
Lemma execute_times_out_without_traffic_witness :
  let w := set_exec_lock (HeldElsewhere None) (__init__ Demo.API_new Demo.ctor_args) in
  let w' := (_execute Demo.api_functions Demo.runner_frame
      Demo.CmdQueue_repr Demo.CmdAckQueue_repr "answer" [] [] w).2 in
  _terminated w = false
  /\ (lock_acquire 10 (_exec_lock w)).1 = false
  /\ (_execute Demo.api_functions Demo.runner_frame
      Demo.CmdQueue_repr Demo.CmdAckQueue_repr "answer" [] [] w).1
     = Raised (TimeoutError "CmdQueue is full and was not cleared in 10 seconds!")
  /\ _CmdQueue w' = _CmdQueue w
  /\ _CmdAckQueue w' = _CmdAckQueue w
  /\ _runner_process w' = _runner_process w
  /\ log w' = log w ++ [EvAcquire 10 false]
  /\ _exec_lock w' = (lock_acquire 10 (_exec_lock w)).2
  /\ (forall r, _exec_lock w = HeldElsewhere r -> exists r', _exec_lock w' = HeldElsewhere r').
Proof.
  intros w w'. split; [reflexivity|]. split; [reflexivity|].
  apply (execute_times_out_without_traffic nat Demo.api_functions Demo.runner_frame
      Demo.CmdQueue_repr Demo.CmdAckQueue_repr
           w "answer" [] []); reflexivity.
Defined.

(** C5, the claim as stated, at the small Target API: the class attribute
    [_DEFAULT_JLINK_SPEED_KHZ] passes attribute access, is not among the
    worker's bound methods, and the forwarded call travels through both
    queues to come back as the worker's [KeyError]. *)
Lemma facade_accepts_a_name_the_worker_rejects :
  let name := "_DEFAULT_JLINK_SPEED_KHZ" in
  let w0 := __init__ Demo.API_new Demo.ctor_args in
  let cl := forward Demo.API_class_attrs Demo.api_functions Demo.runner_frame
      Demo.CmdQueue_repr Demo.CmdAckQueue_repr name [] [] w0 in
  ~ (forall n, n ∈ Demo.API_class_attrs -> is_Some (Demo.api_functions !! n))
  /\ (__getattr__ Demo.API_class_attrs Demo.api_functions Demo.runner_frame
      Demo.CmdQueue_repr Demo.CmdAckQueue_repr name w0).2 = w0
  /\ (exists f,
        (__getattr__ Demo.API_class_attrs Demo.api_functions Demo.runner_frame
            Demo.CmdQueue_repr Demo.CmdAckQueue_repr name w0).1
        = Returned f)
  /\ Demo.api_functions !! name = None
  /\ cl.1 = Raised (KeyError name)
  /\ executed (log cl.2) = [mkCommand name [] []].
Proof.
  intros name w0 cl.
  assert (Hin : name ∈ Demo.API_class_attrs)
    by (apply (bool_decide_unpack _); vm_compute; exact I).
  assert (Hnone : Demo.api_functions !! name = None) by (vm_compute; reflexivity).
  split.
  { intros Hall. destruct (Hall name Hin) as [f Hf]. rewrite Hnone in Hf. discriminate. }
  split; [vm_compute; reflexivity|].
  split.
  { unfold __getattr__. rewrite bool_decide_eq_true_2 by exact Hin. eexists. reflexivity. }
  split; [exact Hnone|].
  split; vm_compute; reflexivity.
Qed.

(** [reboot] is no attribute of the small Target API;
    [_DEFAULT_JLINK_SPEED_KHZ] is one, and no method. *)
Lemma unknown_names_fail_at_the_facade_witness :
  let w0 := __init__ Demo.API_new Demo.ctor_args in
  let name := "_DEFAULT_JLINK_SPEED_KHZ" in
  let c := mkCommand name [] [] in
  let tb := format_exc (Demo.runner_frame +:+ "") (KeyError name) in
  let a := mkCommandAck (Some (KeyError name)) tb VNone in
  ("reboot" ∉ Demo.API_class_attrs)
  /\ (__getattr__ Demo.API_class_attrs Demo.api_functions Demo.runner_frame
      Demo.CmdQueue_repr Demo.CmdAckQueue_repr "reboot" w0).1
     = Raised (AttributeError ("'MultiAPI' object has no attribute '" +:+ "reboot" +:+ "'"))
  /\ (__getattr__ Demo.API_class_attrs Demo.api_functions Demo.runner_frame
      Demo.CmdQueue_repr Demo.CmdAckQueue_repr "reboot" w0).2
     = w0
  /\ (name ∈ Demo.API_class_attrs)
  /\ Demo.api_functions !! name = None
  /\ forward Demo.API_class_attrs Demo.api_functions Demo.runner_frame
      Demo.CmdQueue_repr Demo.CmdAckQueue_repr name [] []
       (idle_world 0 [])
     = (Raised (KeyError name),
        idle_world 0
          ([] ++ [EvAcquire 10 true; EvCmdPut c; EvWorkerGet c; EvWorkerPut a;
                  EvAckGet a; EvRelease; EvPrint tb])).
Proof.
  intros w0 name c tb a.
  assert (Hout : "reboot" ∉ Demo.API_class_attrs)
    by (apply (bool_decide_unpack _); vm_compute; exact I).
  assert (Hin : name ∈ Demo.API_class_attrs)
    by (apply (bool_decide_unpack _); vm_compute; exact I).
  assert (Hnone : Demo.api_functions !! name = None) by (vm_compute; reflexivity).
  pose proof (unknown_names_fail_at_the_facade nat Demo.API_class_attrs
                Demo.api_functions Demo.runner_frame Demo.CmdQueue_repr
                Demo.CmdAckQueue_repr) as (H1 & _ & _ & _ & H5).
  split; [exact Hout|]. split; [exact (proj1 (H1 "reboot" w0 Hout))|].
  split; [exact (proj2 (H1 "reboot" w0 Hout))|]. split; [exact Hin|]. split; [exact Hnone|].
  exact (H5 name [] [] 0 [] Hin Hnone).
Defined.




(** A served call leaves the flag alone. *)
Lemma liveness_flag_is_monotonic_witness :
  let w0 := __init__ Demo.API_new Demo.ctor_args in
  let op := OpExecute "answer" [] [] in
  calls_terminate op = false
  /\ _terminated (run_op Demo.API_class_attrs Demo.api_functions Demo.runner_frame
      Demo.CmdQueue_repr Demo.CmdAckQueue_repr op w0)
     = _terminated w0.
Proof.
  intros w0 op. split; [reflexivity|].
  exact (proj1 (proj2 (proj2 (proj2
           (liveness_flag_is_monotonic nat Demo.API_new Demo.API_class_attrs
              Demo.api_functions Demo.runner_frame
                  Demo.CmdQueue_repr Demo.CmdAckQueue_repr)))) op w0 eq_refl).
Defined.

(** [answer] is an attribute of the small Target API. *)
Lemma getattr_returns_callable_without_effect_witness :
  let w0 := __init__ Demo.API_new Demo.ctor_args in
  ("answer" ∈ Demo.API_class_attrs)
  /\ exists f : Callable nat,
       __getattr__ Demo.API_class_attrs Demo.api_functions Demo.runner_frame
           Demo.CmdQueue_repr Demo.CmdAckQueue_repr "answer" w0
       = (Returned f, w0)
       /\ forall args kwargs,
            f args kwargs = _execute Demo.api_functions Demo.runner_frame
                Demo.CmdQueue_repr Demo.CmdAckQueue_repr "answer" args kwargs.
Proof.
  intros w0.
  assert (Hin : "answer" ∈ Demo.API_class_attrs)
    by (apply (bool_decide_unpack _); vm_compute; exact I).
  split; [exact Hin|].
  exact (getattr_returns_callable_without_effect nat Demo.API_class_attrs
           Demo.api_functions Demo.runner_frame
               Demo.CmdQueue_repr Demo.CmdAckQueue_repr "answer" w0 Hin).
Defined.

(** ** The further theorems at concrete inputs *)

(** [answer()] on the small Target API. *)
Lemma remote_result_is_returned_witness :
  let c := mkCommand "answer" [] [] in
  let a := mkCommandAck None "" (VInt 42) in
  invoke Demo.api_functions c 0 = (MReturn (VInt 42), 1)
  /\ _execute Demo.api_functions Demo.runner_frame
      Demo.CmdQueue_repr Demo.CmdAckQueue_repr "answer" [] [] (idle_world 0 [])
     = (Returned (VInt 42),
        idle_world 1
          ([] ++ [EvAcquire 10 true; EvCmdPut c; EvWorkerGet c; EvWorkerPut a;
                  EvAckGet a; EvRelease])).
Proof.
  intros c a.
  assert (H : invoke Demo.api_functions c 0 = (MReturn (VInt 42), 1))
    by (vm_compute; reflexivity).
  split; [exact H|].
  exact (remote_result_is_returned nat Demo.api_functions Demo.runner_frame
      Demo.CmdQueue_repr Demo.CmdAckQueue_repr
           "answer" [] [] 0 1 [] (VInt 42) H).
Defined.

(** A body that returns 7 on a fresh facade. *)
Lemma guard_releases_after_normal_body_witness :
  let w := __init__ Demo.API_new Demo.ctor_args in
  let body := fun _ : bool => ret (ApiState:=nat) 7 in
  let w2 := emit [EvAcquire 3 true] (set_exec_lock Held w) in
  (lock_acquire 3 (_exec_lock w)).1 = true
  /\ body true (emit [EvAcquire 3 true] (set_exec_lock Held w)) = (Returned 7, w2)
  /\ _exec_lock w2 = Held
  /\ acquire_with_timeout 3 body w
     = (Returned 7, emit [EvRelease] (set_exec_lock Unlocked w2)).
Proof.
  intros w body w2. split; [reflexivity|]. split; [reflexivity|]. split; [reflexivity|].
  exact (@guard_releases_after_normal_body nat nat 3 body w w2 7 eq_refl eq_refl eq_refl).
Defined.

(** A body that ignores the flag, on a lock held for good elsewhere. *)
Lemma guard_without_lock_only_runs_body_witness :
  let w := set_exec_lock (HeldElsewhere None) (__init__ Demo.API_new Demo.ctor_args) in
  let body := fun _ : bool => ret (ApiState:=nat) 7 in
  (lock_acquire 3 (_exec_lock w)).1 = false
  /\ acquire_with_timeout 3 body w
     = body false (emit [EvAcquire 3 false]
                     (set_exec_lock (lock_acquire 3 (_exec_lock w)).2 w)).
Proof.
  intros w body. split; [reflexivity|].
  exact (@guard_without_lock_only_runs_body nat nat 3 body w eq_refl).
Defined.

(** A facade whose worker process has died. *)
Lemma execute_blocks_when_worker_is_dead_witness :
  let w := mkWorld Queue_new Queue_new (@Dead nat) false Unlocked [] in
  let w' := (_execute Demo.api_functions Demo.runner_frame
      Demo.CmdQueue_repr Demo.CmdAckQueue_repr "answer" [] [] w).2 in
  _terminated w = false
  /\ (lock_acquire 10 (_exec_lock w)).1 = true
  /\ closed (_CmdQueue w) = false
  /\ _CmdAckQueue w = Queue_new
  /\ _runner_process w = Dead
  /\ (_execute Demo.api_functions Demo.runner_frame
      Demo.CmdQueue_repr Demo.CmdAckQueue_repr "answer" [] [] w).1 = Blocked
  /\ items (_CmdQueue w') = items (_CmdQueue w) ++ [mkCommand "answer" [] []]
  /\ _exec_lock w' = Held
  /\ log w' = log w ++ [EvAcquire 10 true; EvCmdPut (mkCommand "answer" [] []);
                        EvAckGetBlocked].
Proof.
  intros w w'. do 5 (split; [reflexivity|]).
  exact (execute_blocks_when_worker_is_dead nat Demo.api_functions Demo.runner_frame
      Demo.CmdQueue_repr Demo.CmdAckQueue_repr
           w "answer" [] [] eq_refl eq_refl eq_refl eq_refl eq_refl).
Defined.

(** A Target API whose constructor raises. *)
Lemma failed_api_setup_blocks_first_call_witness :
  let a := mkCtorArgs (VStr "NRF52") VNone false VNone VNone in
  let w := __init__ Demo.failing_API_new a in
  Demo.failing_API_new a = None
  /\ is_alive w = (Returned true, w)
  /\ (_execute Demo.api_functions Demo.runner_frame
      Demo.CmdQueue_repr Demo.CmdAckQueue_repr "answer" [] [] w).1 = Blocked.
Proof.
  intros a w. split; [reflexivity|].
  exact (failed_api_setup_blocks_first_call nat Demo.failing_API_new Demo.api_functions
           Demo.runner_frame
               Demo.CmdQueue_repr Demo.CmdAckQueue_repr (VStr "NRF52") VNone false VNone VNone "answer" [] [] eq_refl).
Defined.

(** [halt()], which raises [SystemExit]. *)
Lemma uncaught_raise_ends_worker_and_blocks_caller_witness :
  let c := mkCommand "halt" [] [] in
  invoke Demo.halting_functions c 0 = (MRaise (SystemExit "") (Demo.frame "halt"), 1)
  /\ exc_is_Exception (SystemExit "") = false
  /\ _execute Demo.halting_functions Demo.runner_frame
      Demo.CmdQueue_repr Demo.CmdAckQueue_repr "halt" [] [] (idle_world 0 [])
     = (Blocked,
        mkWorld Queue_new Queue_new Dead false Held
          ([] ++ [EvAcquire 10 true; EvCmdPut c; EvWorkerGet c;
                  EvWorkerExit (SystemExit ""); EvAckGetBlocked])).
Proof.
  intros c.
  assert (H : invoke Demo.halting_functions c 0
              = (MRaise (SystemExit "") (Demo.frame "halt"), 1))
    by (vm_compute; reflexivity).
  split; [exact H|]. split; [reflexivity|].
  exact (uncaught_raise_ends_worker_and_blocks_caller nat Demo.halting_functions
           Demo.runner_frame
               Demo.CmdQueue_repr Demo.CmdAckQueue_repr "halt" [] [] 0 1 [] (SystemExit "") (Demo.frame "halt")
           H eq_refl).
Defined.

(** Two calls on a facade whose lock was left held. *)
Lemma held_lock_fails_every_later_call_witness :
  let w := set_exec_lock Held (__init__ Demo.API_new Demo.ctor_args) in
  let cs := [mkCommand "answer" [] []; mkCommand "close" [] []] in
  let run := submit_all Demo.api_functions Demo.runner_frame
      Demo.CmdQueue_repr Demo.CmdAckQueue_repr cs w in
  let timeout := TimeoutError "CmdQueue is full and was not cleared in 10 seconds!" in
  _terminated w = false
  /\ _exec_lock w = Held
  /\ run.1 = map (fun _ => Raised timeout) cs
  /\ _CmdQueue run.2 = _CmdQueue w
  /\ _CmdAckQueue run.2 = _CmdAckQueue w
  /\ _exec_lock run.2 = Held
  /\ _terminated run.2 = false.
Proof.
  intros w cs run timeout. split; [reflexivity|]. split; [reflexivity|].
  exact (held_lock_fails_every_later_call nat Demo.api_functions Demo.runner_frame
      Demo.CmdQueue_repr Demo.CmdAckQueue_repr
           cs w eq_refl eq_refl).
Defined.

Lemma Demo_has_close : "close" ∈ Demo.API_class_attrs.
Proof. apply (bool_decide_unpack _). vm_compute. exact I. Qed.

(** Leaving the [with] block on the small Target API. *)
Lemma exit_closes_then_terminates_witness :
  let c := mkCommand "close" [] [] in
  let a := mkCommandAck None "" VNone in
  ("close" ∈ Demo.API_class_attrs)
  /\ invoke Demo.api_functions c 0 = (MReturn VNone, 1)
  /\ __exit__ Demo.API_class_attrs Demo.api_functions Demo.runner_frame
      Demo.CmdQueue_repr Demo.CmdAckQueue_repr (idle_world 0 [])
     = (Returned tt,
        mkWorld (mkQueue [] true) (mkQueue [] true) Dead true Unlocked
          ([] ++ [EvAcquire 10 true; EvCmdPut c; EvWorkerGet c; EvWorkerPut a;
                  EvAckGet a; EvRelease;
                  EvProcessTerminate; EvCmdQueueClose; EvAckQueueClose; EvProcessJoin;
                  EvAckQueueJoinThread; EvCmdQueueJoinThread])).
Proof.
  intros c a.
  assert (H : invoke Demo.api_functions c 0 = (MReturn VNone, 1))
    by (vm_compute; reflexivity).
  split; [exact Demo_has_close|]. split; [exact H|].
  exact (exit_closes_then_terminates nat Demo.API_class_attrs Demo.api_functions
           Demo.runner_frame
               Demo.CmdQueue_repr Demo.CmdAckQueue_repr 0 1 [] VNone Demo_has_close H).
Defined.

(** Leaving the [with] block when [close()] fails. *)
Lemma exit_skips_terminate_when_close_raises_witness :
  let c := mkCommand "close" [] [] in
  let e := APIError "close failed" in
  let w' := (__exit__ Demo.API_class_attrs Demo.failing_close_functions Demo.runner_frame
      Demo.CmdQueue_repr Demo.CmdAckQueue_repr
               (idle_world 0 [])).2 in
  ("close" ∈ Demo.API_class_attrs)
  /\ invoke Demo.failing_close_functions c 0 = (MRaise e (Demo.frame "close"), 1)
  /\ exc_is_Exception e = true
  /\ (__exit__ Demo.API_class_attrs Demo.failing_close_functions Demo.runner_frame
      Demo.CmdQueue_repr Demo.CmdAckQueue_repr
        (idle_world 0 [])).1 = Raised e
  /\ _terminated w' = false
  /\ _runner_process w' = Running 1
  /\ closed (_CmdQueue w') = false
  /\ closed (_CmdAckQueue w') = false.
Proof.
  intros c e w'.
  assert (H : invoke Demo.failing_close_functions c 0 = (MRaise e (Demo.frame "close"), 1))
    by (vm_compute; reflexivity).
  split; [exact Demo_has_close|]. split; [exact H|]. split; [reflexivity|].
  exact (exit_skips_terminate_when_close_raises nat Demo.API_class_attrs
           Demo.failing_close_functions Demo.runner_frame
               Demo.CmdQueue_repr Demo.CmdAckQueue_repr 0 1 [] e (Demo.frame "close")
           Demo_has_close H eq_refl).
Defined.

End MultiAPI.


(** * Facts about pynrfjprog.Parameters *)
Module ParametersFacts.
Import Parameters.

(** ** The validators *)

Lemma is_valid_buf_loop_forallb (items : list PyValue) :
  is_valid_buf_loop items = if forallb is_u8 items then None else Some false.
Proof.
  induction items as [|v rest IH]; [reflexivity|]. simpl.
  destruct (is_u8 v); simpl; [exact IH|reflexivity].
Qed.

(** A list is a valid buffer exactly when it is not empty and each of its
    items is an integer from 0 to 255; the first item that is not ends the
    check. *)
Theorem is_valid_buf_of_list (l : list PyValue) :
  is_valid_buf (PList l) = Ok (forallb is_u8 l && (0 <? length l)).
Proof.
  unfold is_valid_buf. cbn [iterate]. rewrite is_valid_buf_loop_forallb.
  destruct (forallb is_u8 l); reflexivity.
Qed.

Lemma byte_is_u8 (b : Byte.byte) : is_u8 (PInt (Z.of_N (Byte.to_N b))) = true.
Proof.
  unfold is_u8. cbn [as_int]. pose proof (Byte.to_N_bounded b).
  apply andb_true_iff. split; [apply Z.leb_le|apply Z.leb_le]; lia.
Qed.

Lemma bytes_are_u8 (bs : list Byte.byte) :
  forallb is_u8 (map (fun b => PInt (Z.of_N (Byte.to_N b))) bs) = true.
Proof.
  induction bs as [|b rest IH]; [reflexivity|]. simpl map. cbn [forallb].
  rewrite byte_is_u8, IH. reflexivity.
Qed.

(** What else [is_valid_buf] is handed: [bytes] are valid exactly when not
    empty; [None] and every [str] (also a non-empty one) are invalid; an
    integer, a boolean or an enumeration member is not iterable and makes
    the check raise [TypeError] instead of answering. *)
Theorem is_valid_buf_of_other_values :
  (forall bs, is_valid_buf (PBytes bs) = Ok (0 <? length bs))
  /\ is_valid_buf PNone = Ok false
  /\ (forall s, is_valid_buf (PStr s) = Ok false)
  /\ (forall v z, as_int v = Some z ->
        is_valid_buf v = Raise (TypeError ("'" +:+ type_name v +:+ "' object is not iterable"))).
Proof.
  split; [|split; [reflexivity|split]].
  - intros bs. unfold is_valid_buf. cbn [iterate].
    rewrite is_valid_buf_loop_forallb, bytes_are_u8, length_map. reflexivity.
  - intros [|c s]; reflexivity.
  - intros v z Hz. destruct v; try discriminate; reflexivity.
Qed.

(** The validators nest on integers, and booleans count as integers: an
    integer that passes [is_bool] passes [is_u8], what passes [is_u8] passes
    [is_u32], and [True] and [False] pass all three.  A [float] can pass
    [is_bool] (0.5 does) but never [is_u8]. *)
Theorem validators_nest (v : PyValue) :
  (forall z, as_int v = Some z -> is_bool v = Ok true -> is_u8 v = true)
  /\ (is_u8 v = true -> is_u32 v = true)
  /\ (forall b, is_u32 (PBool b) = true /\ is_u8 (PBool b) = true)
  /\ (forall f, is_u8 (PFloat f) = false)
  /\ is_bool (PFloat 0.5) = Ok true.
Proof.
  split; [|split; [|split; [|split; [reflexivity|reflexivity]]]].
  - intros z Hz. unfold is_bool, is_u8. destruct v; cbn [as_int] in *; intros H;
      try discriminate; try (destruct b; reflexivity);
      inversion H as [H']; rewrite H';
      apply andb_true_iff in H' as [H1 H2]; apply Z.leb_le in H1, H2;
      apply andb_true_iff; split; apply Z.leb_le; lia.
  - unfold is_u8, is_u32. destruct (as_int v) as [z|]; [|discriminate].
    intros H. apply andb_true_iff in H as [H1 H2]. apply Z.leb_le in H1, H2.
    apply andb_true_iff. split; apply Z.leb_le; lia.
  - intros [|]; split; reflexivity.
Qed.

(** [is_bool] answers [False] only for a number: an integer outside 0..1,
    or a [float]; for a value that is no number at all ([None], a [str],
    [bytes], a list) it raises [TypeError]. *)
Theorem is_bool_raises_on_non_numbers (v : PyValue) :
  (as_int v = None -> (forall f, v <> PFloat f) ->
     is_bool v = Raise (TypeError ("'<=' not supported between instances of 'int' and '"
                                   +:+ type_name v +:+ "'")))
  /\ (is_bool v = Ok false ->
       (exists z, as_int v = Some z /\ (z < 0 \/ 1 < z)%Z) \/ (exists f, v = PFloat f)).
Proof.
  split.
  - intros Hint Hfl. destruct v; try discriminate; try reflexivity.
    exfalso. exact (Hfl f eq_refl).
  - unfold is_bool. destruct v; cbn [as_int]; intros H; try discriminate;
      try (right; eexists; reflexivity);
      left; inversion H as [H']; eexists; (split; [reflexivity|]);
      apply andb_false_iff in H' as [H'|H']; apply Z.leb_gt in H'; lia.
Qed.

(** ** Enumerations *)

Lemma by_value_Some (E : EnumType) (z : Z) :
  z ∈ (enum_members E).*2 ->
  exists n, by_value E z = Some (mkMember (enum_name E) n z) /\ (n, z) ∈ enum_members E.
Proof.
  intros Hin. apply list_elem_of_fmap in Hin as ([n z'] & Hz & Hnz). simpl in Hz. subst z'.
  unfold by_value.
  assert (Hf : (n, z) ∈ filter (fun nv : string * Z => nv.2 = z) (enum_members E))
    by (apply list_elem_of_filter; split; [reflexivity|exact Hnz]).
  destruct (filter (fun nv : string * Z => nv.2 = z) (enum_members E)) as [|[n' z'] rest] eqn:Hfl.
  - inversion Hf.
  - assert (Hhd : (n', z') ∈ filter (fun nv : string * Z => nv.2 = z) (enum_members E))
      by (rewrite Hfl; left).
    apply list_elem_of_filter in Hhd as [Hz' Hin']. simpl in Hz'. subst z'.
    exists n'. split; [reflexivity|exact Hin'].
Qed.

Lemma by_value_None (E : EnumType) (z : Z) :
  z ∉ (enum_members E).*2 -> by_value E z = None.
Proof.
  intros Hout. unfold by_value.
  destruct (filter (fun nv : string * Z => nv.2 = z) (enum_members E)) as [|[n' z'] rest] eqn:Hfl;
    [reflexivity|].
  exfalso. apply Hout.
  assert (Hhd : (n', z') ∈ filter (fun nv : string * Z => nv.2 = z) (enum_members E))
    by (rewrite Hfl; left).
  apply list_elem_of_filter in Hhd as [Hz' Hin']. simpl in Hz'. subst z'.
  apply list_elem_of_fmap. exists (n', z). split; [reflexivity|exact Hin'].
Qed.

Lemma by_name_Some (E : EnumType) (s : string) :
  s ∈ (enum_members E).*1 ->
  exists n z, by_name E s = Some (mkMember (enum_name E) n z)
              /\ (s, z) ∈ enum_members E /\ (n, z) ∈ enum_members E.
Proof.
  intros Hin. apply list_elem_of_fmap in Hin as ([s' z] & Hs & Hsz). simpl in Hs. subst s'.
  unfold by_name.
  assert (Hf : (s, z) ∈ filter (fun nv : string * Z => nv.1 = s) (enum_members E))
    by (apply list_elem_of_filter; split; [reflexivity|exact Hsz]).
  destruct (filter (fun nv : string * Z => nv.1 = s) (enum_members E)) as [|[s' z'] rest] eqn:Hfl.
  - inversion Hf.
  - assert (Hhd : (s', z') ∈ filter (fun nv : string * Z => nv.1 = s) (enum_members E))
      by (rewrite Hfl; left).
    apply list_elem_of_filter in Hhd as [Hs' Hin']. simpl in Hs'. subst s'.
    destruct (by_value_Some E z') as (n & Hv & Hn).
    { apply list_elem_of_fmap. exists (s, z'). split; [reflexivity|exact Hin']. }
    exists n, z'. rewrite Hv. auto.
Qed.

(** The head of a filtered list is the first element of the list that passes
    the test. *)
Lemma filter_head_is_first {A : Type} (P : A -> Prop) `{!forall x, Decision (P x)}
    (l : list A) (x : A) (rest : list A) :
  filter P l = x :: rest ->
  exists pre post, l = pre ++ x :: post /\ Forall (fun y => ~ P y) pre /\ P x.
Proof.
  induction l as [|y l IH]; intros Hf; [discriminate|].
  rewrite filter_cons in Hf. destruct (decide (P y)) as [Hy|Hy].
  - inversion Hf; subst. exists [], l. auto.
  - destruct (IH Hf) as (pre & post & -> & Hpre & Hx).
    exists (y :: pre), post. auto.
Qed.

(** [by_value] picks the first name defined with the value: no name before
    it in the class body has that value. *)
Lemma by_value_first (E : EnumType) (z : Z) :
  z ∈ (enum_members E).*2 ->
  exists n pre post,
    by_value E z = Some (mkMember (enum_name E) n z)
    /\ enum_members E = pre ++ (n, z) :: post
    /\ (z ∉ pre.*2).
Proof.
  intros Hin. unfold by_value.
  destruct (filter (fun nv : string * Z => nv.2 = z) (enum_members E)) as [|[n z'] rest] eqn:Hfl.
  - exfalso. apply list_elem_of_fmap in Hin as ([n z'] & Hz & Hnz). simpl in Hz. subst z'.
    assert (Hf : (n, z) ∈ filter (fun nv : string * Z => nv.2 = z) (enum_members E))
      by (apply list_elem_of_filter; split; [reflexivity|exact Hnz]).
    rewrite Hfl in Hf. inversion Hf.
  - destruct (filter_head_is_first _ _ _ _ Hfl) as (pre & post & Heq & Hpre & Hz).
    simpl in Hz. subst z'. exists n, pre, post. split; [reflexivity|]. split; [exact Heq|].
    intros Hz. apply list_elem_of_fmap in Hz as ([n' z'] & Hz' & Hn'). simpl in Hz'. subst z'.
    rewrite Forall_forall in Hpre. exact (Hpre _ Hn' eq_refl).
Qed.

(** [by_name] goes from the name to the value bound to it, and from there to
    the first name defined with that value. *)
Lemma by_name_first (E : EnumType) (s : string) :
  s ∈ (enum_members E).*1 ->
  exists n z pre post pre' post',
    by_name E s = Some (mkMember (enum_name E) n z)
    /\ enum_members E = pre ++ (s, z) :: post /\ (s ∉ pre.*1)
    /\ enum_members E = pre' ++ (n, z) :: post' /\ (z ∉ pre'.*2).
Proof.
  intros Hin. unfold by_name.
  destruct (filter (fun nv : string * Z => nv.1 = s) (enum_members E)) as [|[s' z] rest] eqn:Hfl.
  - exfalso. apply list_elem_of_fmap in Hin as ([s' z] & Hs & Hsz). simpl in Hs. subst s'.
    assert (Hf : (s, z) ∈ filter (fun nv : string * Z => nv.1 = s) (enum_members E))
      by (apply list_elem_of_filter; split; [reflexivity|exact Hsz]).
    rewrite Hfl in Hf. inversion Hf.
  - destruct (filter_head_is_first _ _ _ _ Hfl) as (pre & post & Heq & Hpre & Hs).
    simpl in Hs. subst s'.
    destruct (by_value_first E z) as (n & pre' & post' & Hv & Heq' & Hfirst).
    { rewrite Heq, fmap_app, fmap_cons. apply elem_of_app. right. left. }
    exists n, z, pre, post, pre', post'. split; [exact Hv|]. split; [exact Heq|].
    split; [|split; [exact Heq'|exact Hfirst]].
    intros Hs. apply list_elem_of_fmap in Hs as ([s' z'] & Hs' & Hn'). simpl in Hs'. subst s'.
    rewrite Forall_forall in Hpre. exact (Hpre _ Hn' eq_refl).
Qed.

(** [decode_enum] never raises: it returns [None] exactly for what
    [is_enum] rejects, and a member of the requested class for everything
    else. *)
Theorem decode_enum_total (param : PyValue) (E : EnumType) :
  (is_enum param E = false -> decode_enum param E = Ok PNone)
  /\ (is_enum param E = true ->
        exists m, decode_enum param E = Ok (PEnum m) /\ em_class m = enum_name E).
Proof.
  split; intros His; unfold decode_enum; rewrite His; [reflexivity|]. cbn [negb].
  unfold is_enum in His.
  destruct (isinstance_enum param E) eqn:Hinst.
  - destruct param; try discriminate. cbn [as_int]. exists m. split; [reflexivity|].
    apply bool_decide_eq_true in Hinst. exact Hinst.
  - destruct (as_int param) as [z|] eqn:Hint.
    + apply bool_decide_eq_true in His.
      destruct (by_value_Some E z His) as (n & Hv & _).
      unfold enum_call. rewrite Hv. eexists. split; reflexivity.
    + destruct param; try discriminate.
      apply bool_decide_eq_true in His.
      destruct (by_name_Some E s His) as (n & z & Hn & _ & _).
      rewrite Hn. eexists. split; reflexivity.
Qed.

(** [decode_enum] goes by the integer alone: any value that is an [int] (an
    integer, a boolean, a member of another enumeration) and equals the
    value of a member is accepted and turned into the first member defined
    with that value: the member's name is declared with the value, and no
    name declared before it has that value. *)
Theorem decode_enum_by_value (param : PyValue) (z : Z) (E : EnumType) :
  as_int param = Some z ->
  isinstance_enum param E = false ->
  z ∈ (enum_members E).*2 ->
  is_enum param E = true
  /\ exists n, decode_enum param E = Ok (PEnum (mkMember (enum_name E) n z))
               /\ (n, z) ∈ enum_members E
               /\ exists pre post, enum_members E = pre ++ (n, z) :: post /\ (z ∉ pre.*2).
Proof.
  intros Hint Hinst Hin.
  assert (His : is_enum param E = true).
  { unfold is_enum. rewrite Hinst, Hint. apply bool_decide_eq_true. exact Hin. }
  split; [exact His|].
  destruct (by_value_first E z Hin) as (n & pre & post & Hv & Heq & Hfirst).
  exists n. split; [|split].
  - unfold decode_enum, enum_call. rewrite His, Hint, Hinst, Hv. reflexivity.
  - rewrite Heq. apply elem_of_app. right. left.
  - exists pre, post. split; assumption.
Qed.

(** [decode_enum] by name: a declared name gives a member with the value
    bound to that name; the member carries that same name when the class
    has no two names for one value, otherwise the name defined first for
    that value: no name declared before the member's has that value. *)
Theorem decode_enum_by_name (s : string) (E : EnumType) :
  s ∈ (enum_members E).*1 ->
  exists m, decode_enum (PStr s) E = Ok (PEnum m)
            /\ em_class m = enum_name E
            /\ (s, em_value m) ∈ enum_members E
            /\ (em_name m, em_value m) ∈ enum_members E
            /\ (unique E -> em_name m = s)
            /\ (exists pre post,
                  enum_members E = pre ++ (em_name m, em_value m) :: post
                  /\ (em_value m ∉ pre.*2))
            /\ (exists pre post,
                  enum_members E = pre ++ (s, em_value m) :: post /\ (s ∉ pre.*1)).
Proof.
  intros Hin.
  destruct (by_name_first E s Hin)
    as (n & z & pre & post & pre' & post' & Hn & Heq & Hs & Heq' & Hz).
  assert (Hsz : (s, z) ∈ enum_members E)
    by (rewrite Heq; apply elem_of_app; right; left).
  assert (Hnz : (n, z) ∈ enum_members E)
    by (rewrite Heq'; apply elem_of_app; right; left).
  exists (mkMember (enum_name E) n z).
  split.
  { unfold decode_enum, is_enum. cbn [isinstance_enum as_int].
    rewrite bool_decide_eq_true_2 by exact Hin. cbn [negb]. rewrite Hn. reflexivity. }
  split; [reflexivity|]. split; [exact Hsz|]. split; [exact Hnz|].
  cbn [em_name em_value]. split; [|split; [exists pre', post'|exists pre, post]; auto].
  unfold unique. intros Hu.
  apply list_elem_of_lookup in Hsz as [i Hi]. apply list_elem_of_lookup in Hnz as [j Hj].
  assert (Hij : i = j).
  { apply (NoDup_lookup _ i j z Hu); rewrite list_lookup_fmap; [rewrite Hi|rewrite Hj];
      reflexivity. }
  subst j. rewrite Hi in Hj. congruence.
Qed.

(** [CpuRegister] has aliases: [SP] decodes to the member named [R13]. *)
Example decode_enum_alias :
  decode_enum (PStr "SP") CpuRegister = Ok (PEnum (mkMember "CpuRegister" "R13" 13)).
Proof. vm_compute. reflexivity. Qed.

(** ** Log levels *)

Lemma not_declared_level (level : Z) :
  level ∉ (enum_members NrfjrpogdllLogLevel).*2 ->
  (level <> 60 /\ level <> 50 /\ level <> 40 /\ level <> 30 /\ level <> 20
   /\ level <> 10 /\ level <> 0)%Z.
Proof.
  intros Hout. repeat split; intros ->; apply Hout; vm_compute;
    repeat (first [left | right]).
Qed.

(** For a level value the DLL enumeration does not declare, the two
    fallbacks disagree: the name falls back to [info], the [logging] level
    to [NOTSET], which is not the level [info] itself maps to. *)
Theorem undeclared_level_fallbacks_disagree (level : Z) :
  level ∉ (enum_members NrfjrpogdllLogLevel).*2 ->
  get_name_from_value level = "info"
  /\ get_level_from_value level = logging_NOTSET
  /\ get_level_from_value (member_value NrfjrpogdllLogLevel "info") = logging_INFO
  /\ logging_INFO <> logging_NOTSET.
Proof.
  intros Hout. split; [|split; [|split; [reflexivity|discriminate]]].
  - unfold get_name_from_value, enum_call. rewrite (by_value_None _ _ Hout). reflexivity.
  - destruct (not_declared_level level Hout) as (H60 & H50 & H40 & H30 & H20 & H10 & H0).
    unfold get_level_from_value.
    change (member_value NrfjrpogdllLogLevel "critical") with 60%Z.
    change (member_value NrfjrpogdllLogLevel "error") with 50%Z.
    change (member_value NrfjrpogdllLogLevel "warning") with 40%Z.
    change (member_value NrfjrpogdllLogLevel "info") with 30%Z.
    change (member_value NrfjrpogdllLogLevel "debug") with 20%Z.
    change (member_value NrfjrpogdllLogLevel "trace") with 10%Z.
    change (member_value NrfjrpogdllLogLevel "none") with 0%Z.
    repeat match goal with
           | |- context [(level =? ?k)%Z] =>
               destruct (Z.eqb_spec level k); [contradiction|]
           end.
    reflexivity.
Qed.

Lemma declared_level (level : Z) :
  level ∈ (enum_members NrfjrpogdllLogLevel).*2 ->
  (level = 60 \/ level = 50 \/ level = 40 \/ level = 30 \/ level = 20
   \/ level = 10 \/ level = 0)%Z.
Proof.
  intros Hin. cbn in Hin.
  repeat (apply elem_of_cons in Hin as [->|Hin]; [tauto|]).
  inversion Hin.
Qed.

(** On the declared levels the mapping to [logging] levels keeps the order
    and never raises the severity, and it merges [trace] into [debug]: both
    arrive as [DEBUG]. *)
Theorem declared_levels_keep_their_order (l1 l2 : Z) :
  l1 ∈ (enum_members NrfjrpogdllLogLevel).*2 ->
  l2 ∈ (enum_members NrfjrpogdllLogLevel).*2 ->
  (l1 <= l2)%Z ->
  (get_level_from_value l1 <= get_level_from_value l2)%Z
  /\ (get_level_from_value l1 <= l1)%Z
  /\ get_level_from_value (member_value NrfjrpogdllLogLevel "trace") = logging_DEBUG
  /\ get_level_from_value (member_value NrfjrpogdllLogLevel "debug") = logging_DEBUG.
Proof.
  intros H1 H2 Hle.
  apply declared_level in H1, H2.
  split; [|split; [|split; reflexivity]].
  - destruct H1 as [->|[->|[->|[->|[->|[->| ->]]]]]];
      destruct H2 as [->|[->|[->|[->|[->|[->| ->]]]]]];
      vm_compute; vm_compute in Hle; congruence.
  - destruct H1 as [->|[->|[->|[->|[->|[->| ->]]]]]]; vm_compute; congruence.
Qed.

(** ** Memory descriptions *)

Lemma land_pow2_positive (f k : Z) :
  (0 <= k)%Z -> (0 <? Z.land f (2 ^ k))%Z = Z.testbit f k.
Proof.
  intros Hk.
  assert (Hland : Z.land f (2 ^ k) = if Z.testbit f k then (2 ^ k)%Z else 0%Z).
  { apply Z.bits_inj'. intros n Hn. rewrite Z.land_spec, Z.pow2_bits_eqb by exact Hk.
    destruct (Z.eqb_spec k n) as [->|Hne].
    - destruct (Z.testbit f n) eqn:Hb; simpl.
      + rewrite Z.pow2_bits_true by exact Hn. reflexivity.
      + rewrite Z.bits_0. reflexivity.
    - rewrite andb_false_r. destruct (Z.testbit f k).
      + rewrite Z.pow2_bits_false by exact Hne. reflexivity.
      + rewrite Z.bits_0. reflexivity. }
  rewrite Hland. destruct (Z.testbit f k).
  - apply Z.ltb_lt. apply Z.pow_pos_nonneg; lia.
  - reflexivity.
Qed.

(** Each access predicate reads one bit of [access_flags] and nothing else,
    for every integer the field can hold (negative ones included):
    execute is bit 0, write bit 1, read bit 2, erase bit 3. *)
Theorem access_predicates_are_bit_tests (self : MemoryDescription) :
  executable self = Z.testbit (md_access_flags self) 0
  /\ writable self = Z.testbit (md_access_flags self) 1
  /\ readable self = Z.testbit (md_access_flags self) 2
  /\ erasable self = Z.testbit (md_access_flags self) 3.
Proof.
  unfold executable, writable, readable, erasable.
  change (member_value MemoryAccess "MEM_ACCESS_EXECUTE") with (2 ^ 0)%Z.
  change (member_value MemoryAccess "MEM_ACCESS_WRITE") with (2 ^ 1)%Z.
  change (member_value MemoryAccess "MEM_ACCESS_READ") with (2 ^ 2)%Z.
  change (member_value MemoryAccess "MEM_ACCESS_ERASE") with (2 ^ 3)%Z.
  repeat split; apply land_pow2_positive; lia.
Qed.

Lemma enum_call_declared (E : EnumType) (v : Z) :
  v ∈ (enum_members E).*2 ->
  exists n, enum_call E v = Ok (mkMember (enum_name E) n v) /\ (n, v) ∈ enum_members E.
Proof.
  intros Hin. destruct (by_value_Some E v Hin) as (n & Hv & Hn).
  exists n. unfold enum_call. rewrite Hv. auto.
Qed.

Lemma enum_call_undeclared (E : EnumType) (v : Z) :
  v ∉ (enum_members E).*2 ->
  enum_call E v = Raise (ValueError (pretty v +:+ " is not a valid " +:+ enum_name E)).
Proof. intros Hout. unfold enum_call. rewrite (by_value_None E v Hout). reflexivity. Qed.

Lemma MemoryType_values (t : Z) :
  t ∈ (enum_members MemoryType).*2 <-> (0 <= t <= 5)%Z.
Proof.
  cbn. split.
  - intros Hin. repeat (apply elem_of_cons in Hin as [->|Hin]; [lia|]). inversion Hin.
  - intros Ht.
    assert (Hc : (t = 0 \/ t = 1 \/ t = 2 \/ t = 3 \/ t = 4 \/ t = 5)%Z) by lia.
    destruct Hc as [->|[->|[->|[->|[->| ->]]]]]; repeat (first [left | right]).
Qed.

(** A [MemoryDescription] can be built exactly from a struct whose type is
    one of the six declared memory types, 0 to 5: then the description
    carries that type, the flags of the struct and no page repetitions yet;
    any other type makes the constructor raise [ValueError]. *)
Theorem MemoryDescription_init_checks_type
    (utf8_decode_replace : list Byte.byte -> string) (c : MemoryDescriptionStruct) :
  ((0 <= mds_type c <= 5)%Z ->
     exists md, MemoryDescription_init utf8_decode_replace c = Ok md
                /\ em_class (md_type md) = "MemoryType"
                /\ em_value (md_type md) = mds_type c
                /\ md_access_flags md = mds_access_flags c
                /\ md_cstruct md = c
                /\ md_page_repetitions md = None)
  /\ (~ (0 <= mds_type c <= 5)%Z ->
       MemoryDescription_init utf8_decode_replace c
       = Raise (ValueError (pretty (mds_type c) +:+ " is not a valid MemoryType"))).
Proof.
  split; intros Ht; unfold MemoryDescription_init.
  - apply MemoryType_values in Ht.
    destruct (enum_call_declared MemoryType _ Ht) as (n & Hcall & _).
    rewrite Hcall. eexists. repeat split.
  - rewrite enum_call_undeclared; [reflexivity|].
    intros Hin. apply Ht. apply MemoryType_values. exact Hin.
Qed.

(** ** Info classes *)

(** [DeviceInfo] checks the device type before the family: an undeclared
    device type raises the [ValueError] of [DeviceVersion] whatever the
    family is; with a declared type an undeclared family raises that of
    [DeviceFamily]; with both declared the info is built and carries members
    with exactly those two values. *)
Theorem DeviceInfo_init_checks_type_then_family
    (device_info : DeviceInfoStruct) (dll_ret_code : option Z) :
  let t := dis_device_type device_info in
  let f := dis_device_family device_info in
  (t ∉ (enum_members DeviceVersion).*2 ->
     DeviceInfo_init device_info dll_ret_code
     = Raise (ValueError (pretty t +:+ " is not a valid DeviceVersion")))
  /\ (t ∈ (enum_members DeviceVersion).*2 -> f ∉ (enum_members DeviceFamily).*2 ->
       DeviceInfo_init device_info dll_ret_code
       = Raise (ValueError (pretty f +:+ " is not a valid DeviceFamily")))
  /\ (t ∈ (enum_members DeviceVersion).*2 -> f ∈ (enum_members DeviceFamily).*2 ->
       exists di, DeviceInfo_init device_info dll_ret_code = Ok di
                  /\ em_class (di_device_type di) = "DeviceVersion"
                  /\ em_value (di_device_type di) = t
                  /\ em_class (di_device_family di) = "DeviceFamily"
                  /\ em_value (di_device_family di) = f
                  /\ di_dll_ret_code di = dll_ret_code).
Proof.
  intros t f. unfold DeviceInfo_init. fold t f. split; [|split].
  - intros Ht. rewrite (enum_call_undeclared _ _ Ht). reflexivity.
  - intros Ht Hf. destruct (enum_call_declared _ _ Ht) as (n & Hcall & _).
    rewrite Hcall, (enum_call_undeclared _ _ Hf). reflexivity.
  - intros Ht Hf. destruct (enum_call_declared _ _ Ht) as (n & Hcall & _).
    destruct (enum_call_declared _ _ Hf) as (n' & Hcall' & _).
    rewrite Hcall, Hcall'. eexists. repeat split.
Qed.

(** [ProbeInfo] keeps the count the struct reports but can list no more COM
    ports than the array of the struct holds: the list has
    [min(num_com_ports, 10)] entries, the leading ones of the array in
    order, so a count above 10 no longer matches the list. *)
Theorem ProbeInfo_com_ports_are_clamped
    (utf8_decode_replace : list Byte.byte -> string) (probe_info : ProbeInfoStruct) :
  length (pis_com_ports probe_info) = NRFJPROG_COM_PER_JLINK ->
  let self := ProbeInfo_init utf8_decode_replace probe_info in
  pi_num_com_ports self = pis_num_com_ports probe_info
  /\ length (pi_com_ports self)
     = Nat.min (N.to_nat (pis_num_com_ports probe_info)) NRFJPROG_COM_PER_JLINK
  /\ pi_com_ports self
     = map (ComPortInfo_init utf8_decode_replace)
           (take (N.to_nat (pis_num_com_ports probe_info)) (pis_com_ports probe_info))
  /\ ((10 < pis_num_com_ports probe_info)%N ->
       N.of_nat (length (pi_com_ports self)) <> pi_num_com_ports self).
Proof.
  intros Hlen self.
  assert (Hl : length (pi_com_ports self)
               = Nat.min (N.to_nat (pis_num_com_ports probe_info)) NRFJPROG_COM_PER_JLINK).
  { unfold self, ProbeInfo_init. cbn [pi_com_ports].
    rewrite length_map, length_take, Hlen. reflexivity. }
  split; [reflexivity|]. split; [exact Hl|]. split; [reflexivity|].
  intros Hbig. rewrite Hl. unfold NRFJPROG_COM_PER_JLINK. cbn [pi_num_com_ports self ProbeInfo_init].
  lia.
Qed.

(** [decode_string] normalises: what it returns is a [str], and decoding
    that again changes nothing; a value that is neither [str] nor [bytes]
    makes it raise [AttributeError]. *)
Theorem decode_string_is_idempotent
    (utf8_decode_replace : list Byte.byte -> string) (v : PyValue) :
  (forall r, decode_string utf8_decode_replace v = Ok r ->
     (exists s, r = PStr s) /\ decode_string utf8_decode_replace r = Ok r)
  /\ ((forall s, v <> PStr s) -> (forall bs, v <> PBytes bs) ->
       decode_string utf8_decode_replace v
       = Raise (AttributeError ("'" +:+ type_name v +:+ "' object has no attribute 'decode'"))).
Proof.
  split.
  - intros r Hr. destruct v; simpl in Hr; try discriminate; inversion Hr; subst r;
      (split; [eexists; reflexivity|reflexivity]).
  - intros Hs Hb. destruct v; try reflexivity.
    + exfalso. exact (Hs s eq_refl).
    + exfalso. exact (Hb bs eq_refl).
Qed.

(** ** The logger adapter *)

Lemma LoggerAdapter_finish_spec (id log_str : option string) (l : Logger) :
  exists l', LoggerAdapter_finish id log_str l = (l', Ok (mkLoggerAdapter id (negb (disabled l))))
             /\ disabled l' = disabled l
             /\ map h_kind (handlers l') = map h_kind (handlers l)
             /\ (disabled l = true -> l' = l)
             /\ (log_str = None -> l' = l)
             /\ (forall prefix, disabled l = false -> log_str = Some prefix ->
                   Forall (fun h => h_format h = Some (prefix +:+ "%(message)s")) (handlers l')).
Proof.
  unfold LoggerAdapter_finish. destruct (disabled l) eqn:Hd; cbn [negb].
  - exists l. repeat split; auto; intros; discriminate.
  - destruct log_str as [prefix|].
    + eexists. split; [reflexivity|]. cbn [disabled handlers].
      split; [reflexivity|]. split.
      { rewrite <- list_fmap_compose. apply list_fmap_ext. intros i h _. reflexivity. }
      split; [intros; discriminate|]. split; [intros; discriminate|].
      intros p _ Hp. inversion Hp. subst p. apply Forall_fmap, Forall_true.
      intros h. reflexivity.
    + exists l. repeat split; auto. intros; discriminate.
Qed.

(** When the constructor returns, logging is switched off exactly when
    neither a stream nor a file was given and [log] is not true; a
    callback or a format string does not count.  [log_cb] is set exactly
    when logging is on, and [extra] is the id. *)
Theorem logging_is_enabled_by_stream_file_or_flag
    (open_error : string -> option PyError) (logger : Logger) (id : option string)
    (log : option bool) (log_str_cb log_str log_file_path log_stringio : option string)
    (logger' : Logger) (self : LoggerAdapter) :
  LoggerAdapter_init open_error logger id log log_str_cb log_str log_file_path log_stringio
  = (logger', Ok self) ->
  disabled logger'
  = (bool_decide (log_stringio = None) && bool_decide (log_file_path = None) && falsy log)
  /\ log_cb self = negb (disabled logger')
  /\ extra self = id.
Proof.
  unfold LoggerAdapter_init. intros H.
  destruct log_stringio as [io|]; [|destruct log_file_path as [path|]].
  - match type of H with LoggerAdapter_finish ?i ?s ?l = _ =>
      destruct (LoggerAdapter_finish_spec i s l) as (l' & Hf & Hd & _) end.
    rewrite Hf in H. inversion H. subst. rewrite Hd.
    destruct log_str_cb; repeat split.
  - destruct (open_error path); [discriminate|].
    match type of H with LoggerAdapter_finish ?i ?s ?l = _ =>
      destruct (LoggerAdapter_finish_spec i s l) as (l' & Hf & Hd & _) end.
    rewrite Hf in H. inversion H. subst. rewrite Hd.
    destruct log_str_cb; repeat split.
  - destruct (falsy log) eqn:Hlog;
      match type of H with LoggerAdapter_finish ?i ?s ?l = _ =>
        destruct (LoggerAdapter_finish_spec i s l) as (l' & Hf & Hd & _) end;
      rewrite Hf in H; inversion H; subst; rewrite Hd;
      destruct log_str_cb; repeat split.
Qed.

(** A callback alone does not switch logging on: with only [log_str_cb]
    given the callback handler is installed behind the error handler, but
    the logger ends disabled, [log_cb] stays [None], and a format string is
    not applied. *)
Theorem callback_alone_leaves_logging_disabled
    (open_error : string -> option PyError) (logger : Logger) (id : option string)
    (cb : string) (log_str : option string) :
  LoggerAdapter_init open_error logger id None (Some cb) log_str None None
  = (mkLogger (handlers logger
               ++ [mkHandler ErrorHandler logging_ERROR None;
                   mkHandler (CallbackHandler cb) logging_NOTSET (Some BASIC_FORMAT)])
              true,
     Ok (mkLoggerAdapter id false)).
Proof.
  unfold LoggerAdapter_init, LoggerAdapter_finish, addHandler, set_disabled.
  cbn [falsy handlers disabled negb]. rewrite <- app_assoc. reflexivity.
Qed.

(** The constructor fails only when a file is to be opened, which it tries
    only without a stream, and then it has already changed the logger: the
    error handler (and the callback handler, if any) is installed and the
    logger enabled. *)
Theorem constructor_fails_only_on_the_file
    (open_error : string -> option PyError) (logger : Logger) (id : option string)
    (log : option bool) (log_str_cb log_str log_file_path log_stringio : option string)
    (logger' : Logger) (e : PyError) :
  LoggerAdapter_init open_error logger id log log_str_cb log_str log_file_path log_stringio
  = (logger', Raise e) ->
  log_stringio = None
  /\ (exists path, log_file_path = Some path /\ open_error path = Some e)
  /\ disabled logger' = false
  /\ map h_kind (handlers logger')
     = map h_kind (handlers logger) ++ [ErrorHandler]
       ++ match log_str_cb with Some cb => [CallbackHandler cb] | None => [] end.
Proof.
  unfold LoggerAdapter_init. intros H.
  destruct log_stringio as [io|]; [|destruct log_file_path as [path|]].
  - match type of H with LoggerAdapter_finish ?i ?s ?l = _ =>
      destruct (LoggerAdapter_finish_spec i s l) as (l' & Hf & _) end.
    rewrite Hf in H. discriminate.
  - destruct (open_error path) as [e'|] eqn:Hopen.
    + inversion H. subst. split; [reflexivity|]. split; [eauto|]. split.
      * destruct log_str_cb; reflexivity.
      * destruct log_str_cb; unfold addHandler, set_disabled; cbn [handlers];
          rewrite ?map_app, <- ?app_assoc; reflexivity.
    + match type of H with LoggerAdapter_finish ?i ?s ?l = _ =>
        destruct (LoggerAdapter_finish_spec i s l) as (l' & Hf & _) end.
      rewrite Hf in H. discriminate.
  - destruct (falsy log);
      match type of H with LoggerAdapter_finish ?i ?s ?l = _ =>
        destruct (LoggerAdapter_finish_spec i s l) as (l' & Hf & _) end;
      rewrite Hf in H; discriminate.
Qed.

(** With logging on, a format string is put on every handler of the logger,
    not only on those the constructor added: the handlers that were there
    before and the error handler get it too. *)
Theorem log_str_reformats_every_handler
    (open_error : string -> option PyError) (logger : Logger) (id : option string)
    (log : option bool) (log_str_cb log_file_path log_stringio : option string)
    (prefix : string) (logger' : Logger) (self : LoggerAdapter) :
  LoggerAdapter_init open_error logger id log log_str_cb (Some prefix) log_file_path
    log_stringio = (logger', Ok self) ->
  log_cb self = true ->
  Forall (fun h => h_format h = Some (prefix +:+ "%(message)s")) (handlers logger')
  /\ length (handlers logger) < length (handlers logger')
  /\ take (length (handlers logger)) (map h_kind (handlers logger'))
     = map h_kind (handlers logger).
Proof.
  unfold LoggerAdapter_init. intros H Hcb.
  assert (Hgen : forall l,
    LoggerAdapter_finish id (Some prefix) l = (logger', Ok self) ->
    (exists extra_handlers, handlers l = handlers logger ++ extra_handlers
                            /\ extra_handlers <> []) ->
    Forall (fun h => h_format h = Some (prefix +:+ "%(message)s")) (handlers logger')
    /\ length (handlers logger) < length (handlers logger')
    /\ take (length (handlers logger)) (map h_kind (handlers logger'))
       = map h_kind (handlers logger)).
  { intros l Hfin (ex & Hex & Hne).
    destruct (LoggerAdapter_finish_spec id (Some prefix) l)
      as (l' & Hf & Hd & Hk & _ & _ & Hfmt).
    rewrite Hf in Hfin. inversion Hfin. subst l' self. cbn [log_cb] in Hcb.
    apply negb_true_iff in Hcb.
    split; [exact (Hfmt prefix Hcb eq_refl)|].
    assert (Hlen : length (handlers logger') = length (handlers l)).
    { rewrite <- (length_map h_kind (handlers logger')), Hk, length_map. reflexivity. }
    split.
    - rewrite Hlen, Hex, length_app. destruct ex; [contradiction|]. simpl. lia.
    - rewrite Hk, Hex, map_app, <- (length_map h_kind (handlers logger)).
      apply take_app_length. }
  destruct log_stringio as [io|]; [|destruct log_file_path as [path|]].
  - apply (Hgen _ H). destruct log_str_cb; unfold addHandler, set_disabled; cbn [handlers];
      rewrite <- ?app_assoc; eexists; (split; [reflexivity|discriminate]).
  - destruct (open_error path); [discriminate|].
    apply (Hgen _ H). destruct log_str_cb; unfold addHandler, set_disabled; cbn [handlers];
      rewrite <- ?app_assoc; eexists; (split; [reflexivity|discriminate]).
  - destruct (falsy log); apply (Hgen _ H);
      destruct log_str_cb; unfold addHandler, set_disabled; cbn [handlers];
      rewrite <- ?app_assoc; eexists; (split; [reflexivity|discriminate]).
Qed.

(** ** The facts at concrete inputs *)

(** The integer 5 is not a buffer. *)
Lemma is_valid_buf_of_other_values_witness :
  as_int (PInt 5) = Some 5%Z
  /\ is_valid_buf (PInt 5) = Raise (TypeError "'int' object is not iterable").
Proof.
  split; [reflexivity|].
  exact (proj2 (proj2 (proj2 is_valid_buf_of_other_values)) (PInt 5) 5%Z eq_refl).
Defined.

(** The integer 1 passes as a boolean, hence as a byte. *)
Lemma validators_nest_witness :
  is_bool (PInt 1) = Ok true /\ is_u8 (PInt 1) = true.
Proof.
  split; [reflexivity|]. exact (proj1 (validators_nest (PInt 1)) 1%Z eq_refl eq_refl).
Defined.

(** [is_bool(None)] raises. *)
Lemma is_bool_raises_on_non_numbers_witness :
  as_int PNone = None
  /\ is_bool PNone
     = Raise (TypeError "'<=' not supported between instances of 'int' and 'NoneType'").
Proof.
  split; [reflexivity|].
  exact (proj1 (is_bool_raises_on_non_numbers PNone) eq_refl ltac:(discriminate)).
Defined.

(** The integer 1 is a device family. *)
Lemma decode_enum_total_witness :
  is_enum (PInt 1) DeviceFamily = true
  /\ exists m, decode_enum (PInt 1) DeviceFamily = Ok (PEnum m)
               /\ em_class m = enum_name DeviceFamily.
Proof.
  split; [reflexivity|]. exact (proj2 (decode_enum_total (PInt 1) DeviceFamily) eq_refl).
Defined.

Lemma one_is_a_device_family : 1%Z ∈ (enum_members DeviceFamily).*2.
Proof. apply (bool_decide_unpack _). vm_compute. exact I. Qed.

(** [RamPower.ON], of value 1, handed in where a device family is expected. *)
Lemma decode_enum_by_value_witness :
  let on := PEnum (mkMember "RamPower" "ON" 1) in
  as_int on = Some 1%Z
  /\ isinstance_enum on DeviceFamily = false
  /\ (1%Z ∈ (enum_members DeviceFamily).*2)
  /\ is_enum on DeviceFamily = true
  /\ exists n, decode_enum on DeviceFamily = Ok (PEnum (mkMember "DeviceFamily" n 1))
               /\ (n, 1%Z) ∈ enum_members DeviceFamily
               /\ exists pre post,
                    enum_members DeviceFamily = pre ++ (n, 1%Z) :: post /\ (1%Z ∉ pre.*2).
Proof.
  intros on. split; [reflexivity|]. split; [reflexivity|].
  split; [exact one_is_a_device_family|].
  exact (decode_enum_by_value on 1%Z DeviceFamily eq_refl eq_refl one_is_a_device_family).
Defined.

Lemma NRF52_is_a_device_family_name : "NRF52" ∈ (enum_members DeviceFamily).*1.
Proof. apply (bool_decide_unpack _). vm_compute. exact I. Qed.

(** The name [NRF52]. *)
Lemma decode_enum_by_name_witness :
  ("NRF52" ∈ (enum_members DeviceFamily).*1)
  /\ exists m, decode_enum (PStr "NRF52") DeviceFamily = Ok (PEnum m)
               /\ em_class m = enum_name DeviceFamily
               /\ ("NRF52", em_value m) ∈ enum_members DeviceFamily
               /\ (em_name m, em_value m) ∈ enum_members DeviceFamily
               /\ (unique DeviceFamily -> em_name m = "NRF52")
               /\ (exists pre post,
                     enum_members DeviceFamily = pre ++ (em_name m, em_value m) :: post
                     /\ (em_value m ∉ pre.*2))
               /\ (exists pre post,
                     enum_members DeviceFamily = pre ++ ("NRF52", em_value m) :: post
                     /\ ("NRF52" ∉ pre.*1)).
Proof.
  split; [exact NRF52_is_a_device_family_name|].
  exact (decode_enum_by_name "NRF52" DeviceFamily NRF52_is_a_device_family_name).
Defined.

Lemma level_55_is_undeclared : 55%Z ∉ (enum_members NrfjrpogdllLogLevel).*2.
Proof. apply (bool_decide_unpack _). vm_compute. exact I. Qed.

(** The level 55, between [error] and [critical]. *)
Lemma undeclared_level_fallbacks_disagree_witness :
  (55%Z ∉ (enum_members NrfjrpogdllLogLevel).*2)
  /\ get_name_from_value 55 = "info"
  /\ get_level_from_value 55 = logging_NOTSET.
Proof.
  split; [exact level_55_is_undeclared|].
  pose proof (undeclared_level_fallbacks_disagree 55 level_55_is_undeclared) as H.
  exact (conj (proj1 H) (proj1 (proj2 H))).
Defined.

Lemma levels_10_and_20_are_declared :
  10%Z ∈ (enum_members NrfjrpogdllLogLevel).*2
  /\ 20%Z ∈ (enum_members NrfjrpogdllLogLevel).*2.
Proof. split; apply (bool_decide_unpack _); vm_compute; exact I. Qed.

(** [trace] and [debug]. *)
Lemma declared_levels_keep_their_order_witness :
  (10%Z ∈ (enum_members NrfjrpogdllLogLevel).*2)
  /\ (20%Z ∈ (enum_members NrfjrpogdllLogLevel).*2)
  /\ (10 <= 20)%Z
  /\ (get_level_from_value 10 <= get_level_from_value 20)%Z.
Proof.
  destruct levels_10_and_20_are_declared as [H10 H20].
  split; [exact H10|]. split; [exact H20|]. split; [lia|].
  exact (proj1 (declared_levels_keep_their_order 10 20 H10 H20 ltac:(lia))).
Defined.

(** A FICR description (type 3), readable only. *)
Lemma MemoryDescription_init_checks_type_witness :
  let decode := fun bs => String.string_of_list_ascii (map Ascii.ascii_of_byte bs) in
  let c := mkMemoryDescriptionStruct 0x10000000 0x1000 1 3 4 false false 0 [] in
  (0 <= mds_type c <= 5)%Z
  /\ exists md, MemoryDescription_init decode c = Ok md
                /\ em_class (md_type md) = "MemoryType"
                /\ em_value (md_type md) = mds_type c
                /\ md_access_flags md = mds_access_flags c
                /\ md_cstruct md = c
                /\ md_page_repetitions md = None.
Proof.
  intros decode c.
  assert (Ht : (0 <= mds_type c <= 5)%Z) by (cbn; lia).
  split; [exact Ht|].
  exact (proj1 (MemoryDescription_init_checks_type decode c) Ht).
Defined.

Lemma type_77_is_undeclared : 77%Z ∉ (enum_members DeviceVersion).*2.
Proof. apply (bool_decide_unpack _). vm_compute. exact I. Qed.

(** A device type the enumeration does not know. *)
Lemma DeviceInfo_init_checks_type_then_family_witness :
  let s := mkDeviceInfoStruct 1 77 0 4096 0x80000 0x10001000 4096 false 0 0x20000000
             0x10000 false 0 0 21 in
  (dis_device_type s ∉ (enum_members DeviceVersion).*2)
  /\ DeviceInfo_init s None = Raise (ValueError "77 is not a valid DeviceVersion").
Proof.
  intros s. split; [exact type_77_is_undeclared|].
  exact (proj1 (DeviceInfo_init_checks_type_then_family s None) type_77_is_undeclared).
Defined.

(** A probe that reports twelve COM ports. *)
Lemma ProbeInfo_com_ports_are_clamped_witness :
  let decode := fun bs => String.string_of_list_ascii (map Ascii.ascii_of_byte bs) in
  let s := mkProbeInfoStruct 683000000 2000 [] 12
             (replicate 10 (mkComPortInfoStruct [] 0 683000000)) in
  length (pis_com_ports s) = NRFJPROG_COM_PER_JLINK
  /\ pi_num_com_ports (ProbeInfo_init decode s) = 12%N
  /\ length (pi_com_ports (ProbeInfo_init decode s)) = 10.
Proof.
  intros decode s. split; [reflexivity|].
  pose proof (ProbeInfo_com_ports_are_clamped decode s eq_refl) as H.
  exact (conj (proj1 H) (proj1 (proj2 H))).
Defined.

(** The bytes of [J-Link]. *)
Lemma decode_string_is_idempotent_witness :
  let decode := fun bs => String.string_of_list_ascii (map Ascii.ascii_of_byte bs) in
  let v := PBytes [Byte.x4a; Byte.x2d; Byte.x4c; Byte.x69; Byte.x6e; Byte.x6b] in
  decode_string decode v = Ok (PStr "J-Link")
  /\ decode_string decode (PStr "J-Link") = Ok (PStr "J-Link").
Proof.
  intros decode v.
  assert (H : decode_string decode v = Ok (PStr "J-Link")) by reflexivity.
  split; [exact H|].
  exact (proj2 (proj1 (decode_string_is_idempotent decode v) (PStr "J-Link") H)).
Defined.

(** [log=True] and nothing else, on a logger without handlers. *)
Lemma logging_is_enabled_by_stream_file_or_flag_witness :
  let open_error := fun _ : string => @None PyError in
  let logger' := mkLogger [mkHandler ErrorHandler logging_ERROR None] false in
  let self := mkLoggerAdapter (Some "683000000") true in
  LoggerAdapter_init open_error (mkLogger [] false) (Some "683000000") (Some true)
    None None None None = (logger', Ok self)
  /\ disabled logger'
     = (bool_decide (@None string = None) && bool_decide (@None string = None)
        && falsy (Some true))
  /\ log_cb self = negb (disabled logger')
  /\ extra self = Some "683000000".
Proof.
  intros open_error logger' self.
  assert (H : LoggerAdapter_init open_error (mkLogger [] false) (Some "683000000")
                (Some true) None None None None = (logger', Ok self)) by reflexivity.
  split; [exact H|].
  exact (logging_is_enabled_by_stream_file_or_flag open_error (mkLogger [] false)
           (Some "683000000") (Some true) None None None None logger' self H).
Defined.

(** A log file that cannot be opened, with a callback given as well. *)
Lemma constructor_fails_only_on_the_file_witness :
  let open_error := fun _ : string => Some (OSError "Permission denied") in
  let logger' := mkLogger [mkHandler ErrorHandler logging_ERROR None;
                           mkHandler (CallbackHandler "cb") logging_NOTSET
                             (Some BASIC_FORMAT)] false in
  LoggerAdapter_init open_error (mkLogger [] true) None (Some true) (Some "cb") None
    (Some "/log.txt") None = (logger', Raise (OSError "Permission denied"))
  /\ @None string = None
  /\ (exists path, Some "/log.txt" = Some path
                   /\ open_error path = Some (OSError "Permission denied"))
  /\ disabled logger' = false
  /\ map h_kind (handlers logger')
     = map h_kind (handlers (mkLogger [] true)) ++ [ErrorHandler] ++ [CallbackHandler "cb"].
Proof.
  intros open_error logger'.
  assert (H : LoggerAdapter_init open_error (mkLogger [] true) None (Some true) (Some "cb")
                None (Some "/log.txt") None
              = (logger', Raise (OSError "Permission denied"))) by reflexivity.
  split; [exact H|].
  exact (constructor_fails_only_on_the_file open_error (mkLogger [] true) None (Some true)
           (Some "cb") None (Some "/log.txt") None logger' (OSError "Permission denied") H).
Defined.

(** A logger that already has a handler of its own. *)
Lemma log_str_reformats_every_handler_witness :
  let open_error := fun _ : string => @None PyError in
  let fmt := Some ("nrf: " +:+ "%(message)s") in
  let logger := mkLogger [mkHandler (ForeignHandler "app") 30 (Some "%(asctime)s")] false in
  let logger' := mkLogger [mkHandler (ForeignHandler "app") 30 fmt;
                           mkHandler ErrorHandler logging_ERROR fmt] false in
  let self := mkLoggerAdapter None true in
  LoggerAdapter_init open_error logger None (Some true) None (Some "nrf: ") None None
    = (logger', Ok self)
  /\ log_cb self = true
  /\ Forall (fun h => h_format h = Some ("nrf: " +:+ "%(message)s")) (handlers logger').
Proof.
  intros open_error fmt logger logger' self.
  assert (H : LoggerAdapter_init open_error logger None (Some true) None (Some "nrf: ")
                None None = (logger', Ok self)) by reflexivity.
  split; [exact H|]. split; [reflexivity|].
  exact (proj1 (log_str_reformats_every_handler open_error logger None (Some true) None
                  None None "nrf: " logger' self H eq_refl)).
Defined.

End ParametersFacts.
